(** * ConfidentialVotingAutoRegister: a shallow embedding of the contract

    The Solidity contract [ConfidentialVotingAutoRegister] keeps two encrypted
    tallies, a deadline, an initialisation flag and two [mapping(address => bool)]
    registries.  Its functions are embedded below as computations in a small
    state-and-revert monad.  As on the EVM, a call that reverts loses all its
    writes, and a transaction is one call or, when its sender is a contract,
    several calls in a row.

    The FHE library the contract imports ([@fhevm/solidity/lib/FHE.sol]) is
    not part of the repository.  Its handles and the result handle of each
    operation are a parameter, the type class [FHE.Capability]; a separate
    class [Homomorphic] ties each operation to the plaintext it encrypts.
    The access-control list that the library consults is modelled here: an
    operation reverts unless the contract holds a right, lasting or limited
    to the running transaction, on each handle it is given. *)

From Stdlib Require Import ZArith List Bool Lia.
From stdpp Require Import base option gmap list strings.
From Stdlib Require Import Ascii.
From stdpp Require Import pretty.

Local Open Scope Z_scope.

(** ** Basic Solidity types *)

(** [address] is a 160-bit unsigned integer; [address(0)] is [0%N]. *)
Definition address : Type := N.

(** [bytes calldata] *)
Definition bytes : Type := list Byte.byte.

(** [uint256] values are integers below [2^256]; Solidity 0.8 arithmetic on
    them is checked. *)
Definition uint256_limit : Z := 2 ^ 256.

(** [euint8] plaintexts live in [0, 2^8). *)
Definition uint8_limit : Z := 2 ^ 8.

(** ** The encryption capability *)

Module FHE.

(** Handles, and the handle each operation of [FHE.sol] used by the
    contract produces from the handles it is given.  Handles are [bytes32]
    values, so their equality is decidable.  [fromExternal] is the
    verification behind [FHE.fromExternal(handle, attestation)]: the proof is
    checked against the contract address and the caller bound at encryption
    time, and the call reverts when it does not validate ([None]).
    [decrypt] is the plaintext behind a ciphertext; the contract never calls
    it.  The rights that these operations require and leave are added in
    [FHE_add] and the functions next to it. *)
Class Capability : Type := {
  euint8 : Type;
  ebool : Type;
  externalEuint8 : Type;
  euint8_eq_dec :: EqDecision euint8;
  ebool_eq_dec :: EqDecision ebool;
  (** the value of a storage slot of type [euint8] never written to *)
  uninitialized : euint8;
  asEuint8 : Z -> euint8;
  add : euint8 -> euint8 -> euint8;
  sub : euint8 -> euint8 -> euint8;
  mul : euint8 -> euint8 -> euint8;
  eq : euint8 -> euint8 -> ebool;
  or : ebool -> ebool -> ebool;
  fromExternal :
    address (* address(this) *) -> address (* msg.sender *) ->
    externalEuint8 -> bytes -> option euint8;
  decrypt : euint8 -> Z
}.

Section Acl.
Context {F : Capability}.

(** A ciphertext handle of either width. *)
Inductive handle : Type :=
| Euint8 (c : euint8)
| Ebool (b : ebool).

#[global] Instance handle_eq_dec : EqDecision handle.
Proof. solve_decision. Defined.

(** Modelled from the spec: the access-control list of the FHE library,
    which is not part of this repository.  It is permission bookkeeping:
    who may decrypt or compute on which handle, and which handles anyone may
    decrypt.  [allowed] holds the lasting rights; they are only ever
    added. *)
Record acl : Type := {
  allowed : list (handle * address);
  publiclyDecryptable : list handle
}.

Definition no_grants : acl :=
  {| allowed := []; publiclyDecryptable := [] |}.

(** recording a lasting right, as [FHE.allow(value, account)] does once
    its check has passed *)
Definition allow (h : handle) (account : address) (a : acl) : acl :=
  {| allowed := allowed a ++ [(h, account)];
     publiclyDecryptable := publiclyDecryptable a |}.

(** recording that a handle is public, as
    [FHE.makePubliclyDecryptable(value)] does once its check has passed *)
Definition makePubliclyDecryptable (h : handle) (a : acl) : acl :=
  {| allowed := allowed a;
     publiclyDecryptable := publiclyDecryptable a ++ [h] |}.
End Acl.

End FHE.

(** Modelled from the spec: the semantics of the FHE library's [euint8]
    operations, which are not part of this repository.  The plaintext of a
    combined ciphertext is the operation applied to the plaintexts, in 8-bit
    wrap-around arithmetic (no overflow check, no saturation). *)
Class Homomorphic (F : FHE.Capability) : Prop := {
  decrypt_asEuint8 : forall v : Z, FHE.decrypt (FHE.asEuint8 v) = v mod uint8_limit;
  decrypt_add : forall a b : FHE.euint8,
      FHE.decrypt (FHE.add a b) = (FHE.decrypt a + FHE.decrypt b) mod uint8_limit;
  decrypt_sub : forall a b : FHE.euint8,
      FHE.decrypt (FHE.sub a b) = (FHE.decrypt a - FHE.decrypt b) mod uint8_limit;
  decrypt_mul : forall a b : FHE.euint8,
      FHE.decrypt (FHE.mul a b) = (FHE.decrypt a * FHE.decrypt b) mod uint8_limit
}.

(** ** Reverts and events *)

(** One constructor per [require] message of the contract, plus the reverts
    that come from outside its text: the library rejecting a ciphertext
    ([Invalid_ciphertext]), the library refusing to compute on a handle the
    contract holds no right on ([ACL_not_allowed], the executor's
    [ACLNotAllowed]) or to pass on a right it does not hold
    ([Sender_not_allowed], the ACL's [SenderNotAllowed]), and the
    checked-arithmetic panic of Solidity 0.8. *)
Inductive revert_reason : Type :=
| Only_admin
| Voting_closed
| Duration_must_be_positive
| Already_initialized
| Zero_address
| Already_registered
| Contract_not_initialized
| Already_voted
| Not_registered
| Invalid_ciphertext
| ACL_not_allowed
| Sender_not_allowed
| Panic_overflow.

(** The message the contract reverts with. *)
Definition message (r : revert_reason) : string :=
  match r with
  | Only_admin => "Only admin"
  | Voting_closed => "Voting closed"
  | Duration_must_be_positive => "Duration must be positive"
  | Already_initialized => "Already initialized"
  | Zero_address => "Zero address"
  | Already_registered => "Already registered"
  | Contract_not_initialized => "Contract not initialized"
  | Already_voted => "Already voted"
  | Not_registered => "Not registered"
  | Invalid_ciphertext => "Invalid ciphertext"
  | ACL_not_allowed => "ACLNotAllowed"
  | Sender_not_allowed => "SenderNotAllowed"
  | Panic_overflow => "panic: arithmetic overflow (0x11)"
  end.

(** The error taxonomy of the specification. *)
Inductive error : Type :=
| InvalidConfiguration
| Unauthorized
| AlreadyInitialized
| NotInitialized
| AlreadyRegistered
| AlreadyVoted
| VotingClosed
| InvalidArgument
| InvalidCiphertext.

(** How each revert of the contract is named in that taxonomy; the two
    refusals of the access-control list and the overflow panic have no name
    there. *)
Definition taxonomy (r : revert_reason) : option error :=
  match r with
  | Only_admin => Some Unauthorized
  | Voting_closed => Some VotingClosed
  | Duration_must_be_positive => Some InvalidConfiguration
  | Already_initialized => Some AlreadyInitialized
  | Zero_address => Some InvalidArgument
  | Already_registered => Some AlreadyRegistered
  | Contract_not_initialized => Some NotInitialized
  | Already_voted => Some AlreadyVoted
  | Not_registered => Some Unauthorized
  | Invalid_ciphertext => Some InvalidCiphertext
  | ACL_not_allowed => None
  | Sender_not_allowed => None
  | Panic_overflow => None
  end.

Inductive event : Type :=
| VoterRegistered (voter : address) (extraData : bytes)
| VoteCast (voter : address) (extraData : bytes)
| TallyAccessGranted (viewer : address) (extraData : bytes).

(** [msg.sender] and [block.timestamp] of a call. *)
Record env : Type := {
  msg_sender : address;
  block_timestamp : Z
}.

(** ** The contract *)

Section Contract.
Context {F : FHE.Capability}.

(** The storage of the contract, together with what outlives a transaction
    besides it: the event log and the lasting permissions of the ACL. *)
Record world : Type := {
  this : address;
  admin : address;
  totalYesVotes : FHE.euint8;
  totalNoVotes : FHE.euint8;
  votingEndTime : Z;
  initialized : bool;
  isRegistered : gmap N bool;
  hasVoted : gmap N bool;
  log : list event;
  permissions : FHE.acl
}.

Definition set_admin (a : address) (w : world) : world :=
  {| this := this w; admin := a;
     totalYesVotes := totalYesVotes w; totalNoVotes := totalNoVotes w;
     votingEndTime := votingEndTime w; initialized := initialized w;
     isRegistered := isRegistered w; hasVoted := hasVoted w;
     log := log w; permissions := permissions w |}.

Definition set_totalYesVotes (c : FHE.euint8) (w : world) : world :=
  {| this := this w; admin := admin w;
     totalYesVotes := c; totalNoVotes := totalNoVotes w;
     votingEndTime := votingEndTime w; initialized := initialized w;
     isRegistered := isRegistered w; hasVoted := hasVoted w;
     log := log w; permissions := permissions w |}.

Definition set_totalNoVotes (c : FHE.euint8) (w : world) : world :=
  {| this := this w; admin := admin w;
     totalYesVotes := totalYesVotes w; totalNoVotes := c;
     votingEndTime := votingEndTime w; initialized := initialized w;
     isRegistered := isRegistered w; hasVoted := hasVoted w;
     log := log w; permissions := permissions w |}.

Definition set_votingEndTime (t : Z) (w : world) : world :=
  {| this := this w; admin := admin w;
     totalYesVotes := totalYesVotes w; totalNoVotes := totalNoVotes w;
     votingEndTime := t; initialized := initialized w;
     isRegistered := isRegistered w; hasVoted := hasVoted w;
     log := log w; permissions := permissions w |}.

Definition set_initialized (b : bool) (w : world) : world :=
  {| this := this w; admin := admin w;
     totalYesVotes := totalYesVotes w; totalNoVotes := totalNoVotes w;
     votingEndTime := votingEndTime w; initialized := b;
     isRegistered := isRegistered w; hasVoted := hasVoted w;
     log := log w; permissions := permissions w |}.

Definition set_isRegistered (m : gmap N bool) (w : world) : world :=
  {| this := this w; admin := admin w;
     totalYesVotes := totalYesVotes w; totalNoVotes := totalNoVotes w;
     votingEndTime := votingEndTime w; initialized := initialized w;
     isRegistered := m; hasVoted := hasVoted w;
     log := log w; permissions := permissions w |}.

Definition set_hasVoted (m : gmap N bool) (w : world) : world :=
  {| this := this w; admin := admin w;
     totalYesVotes := totalYesVotes w; totalNoVotes := totalNoVotes w;
     votingEndTime := votingEndTime w; initialized := initialized w;
     isRegistered := isRegistered w; hasVoted := m;
     log := log w; permissions := permissions w |}.

Definition set_log (l : list event) (w : world) : world :=
  {| this := this w; admin := admin w;
     totalYesVotes := totalYesVotes w; totalNoVotes := totalNoVotes w;
     votingEndTime := votingEndTime w; initialized := initialized w;
     isRegistered := isRegistered w; hasVoted := hasVoted w;
     log := l; permissions := permissions w |}.

Definition set_permissions (a : FHE.acl) (w : world) : world :=
  {| this := this w; admin := admin w;
     totalYesVotes := totalYesVotes w; totalNoVotes := totalNoVotes w;
     votingEndTime := votingEndTime w; initialized := initialized w;
     isRegistered := isRegistered w; hasVoted := hasVoted w;
     log := log w; permissions := a |}.

(** Reading [m[a]] of a [mapping(address => bool)]: absent keys read as
    [false]. *)
Definition flag (m : gmap N bool) (a : address) : bool :=
  default false (m !! a).


(** *** The state within a transaction

    Besides the world, the ACL keeps rights that last until the end of the
    running transaction only ([allowTransient]): the library gives the
    calling contract such a right on every handle it hands out. *)
Record frame : Type := {
  world_of : world;
  transient : list (FHE.handle * address)
}.

(** The state at the start of a transaction. *)
Definition fresh (w : world) : frame :=
  {| world_of := w; transient := [] |}.

(** *** The execution monad

    A computation either finishes with a value and a state, or reverts.
    [Reverted] keeps the state as it stood when the revert was raised, so
    that the writes a call had made by then can be observed; [perform]
    below is where they are thrown away. *)
Inductive outcome (A : Type) : Type :=
| Done (a : A) (s : frame)
| Reverted (r : revert_reason) (s : frame).
Arguments Done {A} a s.
Arguments Reverted {A} r s.

Definition exec (A : Type) : Type := frame -> outcome A.

Definition ret {A : Type} (a : A) : exec A := fun s => Done a s.

Definition bind {A B : Type} (m : exec A) (k : A -> exec B) : exec B :=
  fun s =>
    match m s with
    | Done a s' => k a s'
    | Reverted r s' => Reverted r s'
    end.

Definition require (b : bool) (r : revert_reason) : exec unit :=
  fun s => if b then Done tt s else Reverted r s.

Definition read {A : Type} (f : world -> A) : exec A :=
  fun s => Done (f (world_of s)) s.

Definition write (f : world -> world) : exec unit :=
  fun s => Done tt {| world_of := f (world_of s); transient := transient s |}.

Definition emit (e : event) : exec unit :=
  write (fun w => set_log (log w ++ [e]) w).

End Contract.

Arguments Done {F A} a s.
Arguments Reverted {F A} r s.

(** [x ← c; k] and [c;; k] are stdpp's notations for [bind]. *)
#[global] Instance exec_ret {F : FHE.Capability} : MRet exec := @ret F.
#[global] Instance exec_bind {F : FHE.Capability} : MBind exec :=
  fun A B k m => bind m k.

(** ** The library functions, with their access checks

    The contract holds a right on a handle when the pair of the handle and
    [address(this)] is among the rights of the running transaction or among
    the lasting ones.  Every operation that computes requires that right on
    each operand, else it reverts with [ACLNotAllowed]; it gives the contract
    a right on its result for the rest of the transaction.  [FHE.allow] and
    [FHE.makePubliclyDecryptable] require the right on the handle they are
    about, else they revert with [SenderNotAllowed].  Only [FHE.allow] (and
    [FHE.allowThis]) leaves a lasting right.

    [FHE.sol] also replaces an operand that is the zero handle by a fresh
    encryption of 0; the handles the library hands out are never zero and
    [castVote] requires [initialized], so this is left out. *)

Section Library.
Context {F : FHE.Capability}.

(** Modelled from the spec: the rights that the FHE library, which is not
    part of this repository, keeps on handles.  The spec has the contract
    grant itself access to its totals after each mutation "to retain its own
    future compute rights", "so future homomorphic operations on them remain
    valid": an operation on a handle is valid only for an account that holds
    a right on it.  [isAllowed] is [ACL.isAllowed(handle, account)]. *)
Definition isAllowed (h : FHE.handle) (account : address) (s : frame) : bool :=
  bool_decide ((h, account) ∈ transient s ++ FHE.allowed (permissions (world_of s))).

(** Modelled from the spec: [ACL.allowTransient(handle, account)], by
    which the library gives the calling contract a right, for the running
    transaction, on each handle it hands out. *)
Definition allowTransient (h : FHE.handle) (account : address) : exec unit :=
  fun s =>
    Done tt {| world_of := world_of s;
               transient := (h, account) :: transient s |}.

(** Modelled from the spec: the library's check of an operand. *)
Definition operand (h : FHE.handle) : exec unit :=
  self ← read this;
  ok ← (fun s => Done (isAllowed h self s) s);
  require ok ACL_not_allowed.

(** Modelled from the spec: [FHE.asEuint8(value)] *)
Definition FHE_asEuint8 (value : Z) : exec FHE.euint8 :=
  self ← read this;
  allowTransient (FHE.Euint8 (FHE.asEuint8 value)) self;;
  mret (FHE.asEuint8 value).

(** Modelled from the spec: [FHE.fromExternal(inputHandle, inputProof)],
    called for [e], with a proof to verify: a handle whose proof validates
    comes with a right for the contract for the rest of the transaction. *)
Definition FHE_fromExternal (e : env) (inputHandle : FHE.externalEuint8)
    (inputProof : bytes) : exec FHE.euint8 :=
  self ← read this;
  match FHE.fromExternal self (msg_sender e) inputHandle inputProof with
  | Some c => allowTransient (FHE.Euint8 c) self;; mret c
  | None => fun s => Reverted Invalid_ciphertext s
  end.

(** Modelled from the spec: [FHE.add(a, b)] *)
Definition FHE_add (a b : FHE.euint8) : exec FHE.euint8 :=
  operand (FHE.Euint8 a);;
  operand (FHE.Euint8 b);;
  self ← read this;
  allowTransient (FHE.Euint8 (FHE.add a b)) self;;
  mret (FHE.add a b).

(** Modelled from the spec: [FHE.sub(a, b)] *)
Definition FHE_sub (a b : FHE.euint8) : exec FHE.euint8 :=
  operand (FHE.Euint8 a);;
  operand (FHE.Euint8 b);;
  self ← read this;
  allowTransient (FHE.Euint8 (FHE.sub a b)) self;;
  mret (FHE.sub a b).

(** Modelled from the spec: [FHE.mul(a, b)] *)
Definition FHE_mul (a b : FHE.euint8) : exec FHE.euint8 :=
  operand (FHE.Euint8 a);;
  operand (FHE.Euint8 b);;
  self ← read this;
  allowTransient (FHE.Euint8 (FHE.mul a b)) self;;
  mret (FHE.mul a b).

(** Modelled from the spec: [FHE.eq(a, b)] *)
Definition FHE_eq (a b : FHE.euint8) : exec FHE.ebool :=
  operand (FHE.Euint8 a);;
  operand (FHE.Euint8 b);;
  self ← read this;
  allowTransient (FHE.Ebool (FHE.eq a b)) self;;
  mret (FHE.eq a b).

(** Modelled from the spec: [FHE.or(a, b)] *)
Definition FHE_or (a b : FHE.ebool) : exec FHE.ebool :=
  operand (FHE.Ebool a);;
  operand (FHE.Ebool b);;
  self ← read this;
  allowTransient (FHE.Ebool (FHE.or a b)) self;;
  mret (FHE.or a b).

(** Modelled from the spec: [FHE.allow(value, account)], the spec's
    [grantAccess]; only an account that holds a right on the handle can
    pass it on. *)
Definition FHE_allow (h : FHE.handle) (account : address) : exec unit :=
  self ← read this;
  ok ← (fun s => Done (isAllowed h self s) s);
  require ok Sender_not_allowed;;
  write (fun w => set_permissions (FHE.allow h account (permissions w)) w).

(** Modelled from the spec: [FHE.allowThis(value)], which is
    [FHE.allow(value, address(this))] *)
Definition FHE_allowThis (h : FHE.handle) : exec unit :=
  self ← read this;
  FHE_allow h self.

(** Modelled from the spec: [FHE.makePubliclyDecryptable(value)], the
    spec's [makePublic] *)
Definition FHE_makePubliclyDecryptable (h : FHE.handle) : exec unit :=
  self ← read this;
  ok ← (fun s => Done (isAllowed h self s) s);
  require ok Sender_not_allowed;;
  write (fun w =>
           set_permissions (FHE.makePubliclyDecryptable h (permissions w)) w).

End Library.

(** ** Modifiers and functions of the contract *)

Section Functions.
Context {F : FHE.Capability}.

(** [modifier onlyAdmin] *)
Definition onlyAdmin {A : Type} (e : env) (body : exec A) : exec A :=
  a ← read admin;
  require (N.eqb (msg_sender e) a) Only_admin;;
  body.

(** [modifier votingOpen] *)
Definition votingOpen {A : Type} (e : env) (body : exec A) : exec A :=
  t ← read votingEndTime;
  require (block_timestamp e <? t) Voting_closed;;
  body.

(** [constructor(uint256 durationInSeconds)]; the addition is checked, as
    all [uint256] arithmetic of Solidity 0.8 is. *)
Definition constructor (e : env) (durationInSeconds : Z) : exec unit :=
  require (0 <? durationInSeconds) Duration_must_be_positive;;
  write (set_admin (msg_sender e));;
  require (block_timestamp e + durationInSeconds <? uint256_limit) Panic_overflow;;
  write (set_votingEndTime (block_timestamp e + durationInSeconds)).

(** [function init() external onlyAdmin].  Nothing here calls
    [FHE.allowThis]: the right the contract gets on the two encryptions of
    zero ends with the transaction. *)
Definition init (e : env) : exec unit :=
  onlyAdmin e (
    i ← read initialized;
    require (negb i) Already_initialized;;
    yes ← FHE_asEuint8 0;
    write (set_totalYesVotes yes);;
    no ← FHE_asEuint8 0;
    write (set_totalNoVotes no);;
    write (set_initialized true)).

(** [function registerVoter(address voter, bytes calldata extraData)] *)
Definition registerVoter (e : env) (voter : address) (extraData : bytes)
  : exec unit :=
  onlyAdmin e (
    require (negb (N.eqb voter 0)) Zero_address;;
    reg ← read isRegistered;
    require (negb (flag reg voter)) Already_registered;;
    write (fun w => set_isRegistered (<[voter := true]> (isRegistered w)) w);;
    emit (VoterRegistered voter extraData)).

(** [function allowTallyAccess(address viewer, bytes calldata extraData)] *)
Definition allowTallyAccess (e : env) (viewer : address) (extraData : bytes)
  : exec unit :=
  onlyAdmin e (
    require (negb (N.eqb viewer 0)) Zero_address;;
    yes ← read totalYesVotes;
    FHE_allow (FHE.Euint8 yes) viewer;;
    no ← read totalNoVotes;
    FHE_allow (FHE.Euint8 no) viewer;;
    emit (TallyAccessGranted viewer extraData)).

(** [function makeTallyPublic() external onlyAdmin] *)
Definition makeTallyPublic (e : env) : exec unit :=
  onlyAdmin e (
    yes ← read totalYesVotes;
    FHE_makePubliclyDecryptable (FHE.Euint8 yes);;
    no ← read totalNoVotes;
    FHE_makePubliclyDecryptable (FHE.Euint8 no)).

(** [function getEncryptedTally() external view] *)
Definition getEncryptedTally (e : env) : exec (FHE.euint8 * FHE.euint8) :=
  yes ← read totalYesVotes;
  no ← read totalNoVotes;
  mret (yes, no).

(** [function castVote(voteHandle, weightHandle, attestation, extraData)
    external votingOpen] *)
Definition castVote (e : env) (voteHandle weightHandle : FHE.externalEuint8)
    (attestation extraData : bytes) : exec unit :=
  votingOpen e (
    i ← read initialized;
    require i Contract_not_initialized;;
    reg ← read isRegistered;
    (if negb (flag reg (msg_sender e))
     then
       write (fun w =>
                set_isRegistered (<[msg_sender e := true]> (isRegistered w)) w);;
       emit (VoterRegistered (msg_sender e) extraData)
     else mret tt);;
    voted ← read hasVoted;
    require (negb (flag voted (msg_sender e))) Already_voted;;
    vote ← FHE_fromExternal e voteHandle attestation;
    weight ← FHE_fromExternal e weightHandle attestation;
    one ← FHE_asEuint8 1;
    yesInc ← FHE_mul vote weight;
    rest ← FHE_sub one vote;
    noInc ← FHE_mul rest weight;
    yes ← read totalYesVotes;
    yes' ← FHE_add yes yesInc;
    write (set_totalYesVotes yes');;
    no ← read totalNoVotes;
    no' ← FHE_add no noInc;
    write (set_totalNoVotes no');;
    write (fun w => set_hasVoted (<[msg_sender e := true]> (hasVoted w)) w);;
    emit (VoteCast (msg_sender e) extraData);;
    yes'' ← read totalYesVotes;
    FHE_allowThis (FHE.Euint8 yes'');;
    no'' ← read totalNoVotes;
    FHE_allowThis (FHE.Euint8 no'')).

(** [function grantMyVoteDecryptAccess(voteHandle, attestation)] *)
Definition grantMyVoteDecryptAccess (e : env) (voteHandle : FHE.externalEuint8)
    (attestation : bytes) : exec unit :=
  reg ← read isRegistered;
  require (flag reg (msg_sender e)) Not_registered;;
  vote ← FHE_fromExternal e voteHandle attestation;
  FHE_allow (FHE.Euint8 vote) (msg_sender e).

(** [function verifyVote(voteHandle, attestation)] *)
Definition verifyVote (e : env) (voteHandle : FHE.externalEuint8)
    (attestation : bytes) : exec unit :=
  vote ← FHE_fromExternal e voteHandle attestation;
  zero ← FHE_asEuint8 0;
  isZero ← FHE_eq vote zero;
  one ← FHE_asEuint8 1;
  isOne ← FHE_eq vote one;
  isValid ← FHE_or isZero isOne;
  FHE_allow (FHE.Ebool isValid) (msg_sender e).

(** ** Calls and transactions *)

(** The external functions of the deployed contract. *)
Inductive call : Type :=
| Init
| RegisterVoter (voter : address) (extraData : bytes)
| AllowTallyAccess (viewer : address) (extraData : bytes)
| MakeTallyPublic
| GetEncryptedTally
| CastVote (voteHandle weightHandle : FHE.externalEuint8)
    (attestation extraData : bytes)
| GrantMyVoteDecryptAccess (voteHandle : FHE.externalEuint8) (attestation : bytes)
| VerifyVote (voteHandle : FHE.externalEuint8) (attestation : bytes).

Definition dispatch (e : env) (c : call) : exec unit :=
  match c with
  | Init => init e
  | RegisterVoter voter extraData => registerVoter e voter extraData
  | AllowTallyAccess viewer extraData => allowTallyAccess e viewer extraData
  | MakeTallyPublic => makeTallyPublic e
  | GetEncryptedTally => getEncryptedTally e;; mret tt
  | CastVote voteHandle weightHandle attestation extraData =>
      castVote e voteHandle weightHandle attestation extraData
  | GrantMyVoteDecryptAccess voteHandle attestation =>
      grantMyVoteDecryptAccess e voteHandle attestation
  | VerifyVote voteHandle attestation => verifyVote e voteHandle attestation
  end.

Inductive status : Type :=
| Succeeded
| Failed (r : revert_reason).

(** One external call into the contract in the course of a transaction: the
    function runs, and when it reverts the state is the one the call started
    from, the rights of the running transaction included. *)
Definition perform (s : frame) (e : env) (c : call) : frame * status :=
  match dispatch e c s with
  | Done _ s' => (s', Succeeded)
  | Reverted r _ => (s, Failed r)
  end.

(** A transaction that consists of the one call [c]: it starts with no
    rights left over from earlier transactions other than the lasting
    ones. *)
Definition transact (w : world) (e : env) (c : call) : world * status :=
  (world_of (fst (perform (fresh w) e c)), snd (perform (fresh w) e c)).

(** A transaction in general: the calls into the contract that are made,
    one after the other, in the course of it, each by its own caller and all
    at the timestamp of its block.  An externally owned account sends one
    call; a contract account can make several, and a call of its own that
    reverts need not stop it. *)
Record transaction : Type := {
  timestamp : Z;
  calls : list (address * call)
}.

Fixpoint perform_all (s : frame) (t : Z) (cs : list (address * call)) : frame :=
  match cs with
  | [] => s
  | (sender, c) :: rest =>
      perform_all
        (fst (perform s {| msg_sender := sender; block_timestamp := t |} c))
        t rest
  end.

(** The world a transaction leaves: the rights of the transaction end
    with it. *)
Definition execute (w : world) (tx : transaction) : world :=
  world_of (perform_all (fresh w) (timestamp tx) (calls tx)).

(** Storage before the constructor runs: every slot is zero. *)
Definition blank (self : address) : world :=
  {| this := self; admin := 0%N;
     totalYesVotes := FHE.uninitialized; totalNoVotes := FHE.uninitialized;
     votingEndTime := 0; initialized := false;
     isRegistered := ∅; hasVoted := ∅;
     log := []; permissions := FHE.no_grants |}.

(** Deployment at address [self]: a reverting constructor leaves no
    contract behind. *)
Definition deploy (self : address) (e : env) (durationInSeconds : Z)
  : world + revert_reason :=
  match constructor e durationInSeconds (fresh (blank self)) with
  | Done _ s => inl (world_of s)
  | Reverted r _ => inr r
  end.

(** A sequence of transactions, applied in order. *)
Fixpoint run (w : world) (txs : list transaction) : world :=
  match txs with
  | [] => w
  | tx :: rest => run (execute w tx) rest
  end.

(** The worlds a deployed contract can be in. *)
Inductive reachable : world -> Prop :=
| reachable_deploy (self : address) (e : env) (d : Z) (w : world) :
    deploy self e d = inl w -> reachable w
| reachable_execute (w : world) (tx : transaction) :
    reachable w -> reachable (execute w tx).

(** The contract holds a lasting right on handle [h]. *)
Definition holds (w : world) (h : FHE.handle) : Prop :=
  (h, this w) ∈ FHE.allowed (permissions w).

(** [hasVoted[v]] implies [isRegistered[v]], for every [v]. *)
Definition voted_implies_registered (w : world) : Prop :=
  forall v : address, flag (hasVoted w) v = true -> flag (isRegistered w) v = true.

(** The world once the auto-registration step of [castVote] has run. *)
Definition auto_registered (e : env) (extraData : bytes) (w : world) : world :=
  if flag (isRegistered w) (msg_sender e) then w
  else set_log (log w ++ [VoterRegistered (msg_sender e) extraData])
         (set_isRegistered (<[msg_sender e := true]> (isRegistered w)) w).

(** The world a successful [castVote] ends in. *)
Definition vote_counted (e : env) (extraData : bytes) (vote weight : FHE.euint8)
    (w : world) : world :=
  let w1 := auto_registered e extraData w in
  let yes := FHE.add (totalYesVotes w1) (FHE.mul vote weight) in
  let no :=
    FHE.add (totalNoVotes w1) (FHE.mul (FHE.sub (FHE.asEuint8 1) vote) weight) in
  {| this := this w1; admin := admin w1;
     totalYesVotes := yes; totalNoVotes := no;
     votingEndTime := votingEndTime w1; initialized := initialized w1;
     isRegistered := isRegistered w1;
     hasVoted := <[msg_sender e := true]> (hasVoted w1);
     log := log w1 ++ [VoteCast (msg_sender e) extraData];
     permissions :=
       FHE.allow (FHE.Euint8 no) (this w1)
         (FHE.allow (FHE.Euint8 yes) (this w1) (permissions w1)) |}.

(** The handles [castVote] has made, and holds a right on for the rest of
    the transaction, by the time it adds to the yes tally, and by the time it
    adds to the no tally. *)
Definition vote_handles (vote weight : FHE.euint8) : list FHE.handle :=
  [FHE.Euint8 vote; FHE.Euint8 weight; FHE.Euint8 (FHE.asEuint8 1);
   FHE.Euint8 (FHE.mul vote weight);
   FHE.Euint8 (FHE.sub (FHE.asEuint8 1) vote);
   FHE.Euint8 (FHE.mul (FHE.sub (FHE.asEuint8 1) vote) weight)].

End Functions.

(** ** A capability to run the contract on

    An instance of the capability in which a handle is the expression that
    made it, so that, as with the hashes of the library, two handles are
    equal only when they were made the same way; the plaintext behind a
    handle is the value of the expression in 8-bit arithmetic.  An external
    handle carries the contract and the caller it was encrypted for. *)

Module Mock.

Record external : Type := {
  plaintext : Z;
  bound_contract : address;
  bound_user : address
}.

Inductive ciphertext : Type :=
| Unset
| Trivial (v : Z)
| Input (h : external)
| Add (a b : ciphertext)
| Sub (a b : ciphertext)
| Mul (a b : ciphertext).

Inductive cipherbit : Type :=
| Eq (a b : ciphertext)
| Or (a b : cipherbit).

#[global] Instance external_eq_dec : EqDecision external.
Proof. solve_decision. Defined.

#[global] Instance ciphertext_eq_dec : EqDecision ciphertext.
Proof. solve_decision. Defined.

#[global] Instance cipherbit_eq_dec : EqDecision cipherbit.
Proof. solve_decision. Defined.

Fixpoint decrypt (c : ciphertext) : Z :=
  match c with
  | Unset => 0
  | Trivial v => v mod uint8_limit
  | Input h => plaintext h mod uint8_limit
  | Add a b => (decrypt a + decrypt b) mod uint8_limit
  | Sub a b => (decrypt a - decrypt b) mod uint8_limit
  | Mul a b => (decrypt a * decrypt b) mod uint8_limit
  end.

Fixpoint decryptBool (b : cipherbit) : bool :=
  match b with
  | Eq a b => Z.eqb (decrypt a) (decrypt b)
  | Or a b => decryptBool a || decryptBool b
  end.

(** The attestation that the examples send with their handles. *)
Definition proof : bytes := [Byte.x50; Byte.x4b].

(** An attestation validates when it is not empty and the handle was
    bound to this contract and this caller. *)
Definition fromExternal (self sender : address) (h : external) (attestation : bytes)
  : option ciphertext :=
  if negb (Nat.eqb (length attestation) 0)
     && N.eqb (bound_contract h) self && N.eqb (bound_user h) sender
  then Some (Input h)
  else None.

Definition capability : FHE.Capability :=
  {| FHE.euint8 := ciphertext;
     FHE.ebool := cipherbit;
     FHE.externalEuint8 := external;
     FHE.uninitialized := Unset;
     FHE.asEuint8 := Trivial;
     FHE.add := Add;
     FHE.sub := Sub;
     FHE.mul := Mul;
     FHE.eq := Eq;
     FHE.or := Or;
     FHE.fromExternal := fromExternal;
     FHE.decrypt := decrypt |}.

(** The contract is deployed at [contract] by [deployer], an account that
    is itself a contract and so can make several calls in one transaction;
    [voterX] and [voterY] are two other accounts. *)
Definition contract : address := 100%N.
Definition deployer : address := 1%N.
Definition voterX : address := 7%N.
Definition voterY : address := 8%N.

Definition at_time (sender : address) (t : Z) : env :=
  {| msg_sender := sender; block_timestamp := t |}.

(** [encrypt v sender]: the handle a client obtains for plaintext [v] when
    encrypting for this contract and [sender]. *)
Definition encrypt (v : Z) (sender : address) : external :=
  {| plaintext := v; bound_contract := contract; bound_user := sender |}.

(** The world after [run]ning [txs] on a contract deployed at time [t0]
    with the given duration; the blank world if the constructor reverts. *)
Definition after (t0 duration : Z) (txs : list (transaction (F := capability)))
  : world (F := capability) :=
  match deploy (F := capability) contract (at_time deployer t0) duration with
  | inl w => run w txs
  | inr _ => blank contract
  end.

(** A ballot of [voter]: vote [v] with weight [wt]. *)
Definition ballot (voter : address) (v wt : Z) : call (F := capability) :=
  CastVote (F := capability) (encrypt v voter) (encrypt wt voter) proof [].

(** The transaction of the one call [c] sent by [sender] at time [t]. *)
Definition single (sender : address) (t : Z) (c : call (F := capability))
  : transaction (F := capability) :=
  {| timestamp := t; calls := [(sender, c)] |}.

(** A ten-second round deployed at time 0. *)
Definition deployed : world (F := capability) := after 0 10 [].

(** The round once the deployer has called [init] at time 1, in a
    transaction of its own: the contract is left without a right on its
    tallies. *)
Definition initialized_alone : world (F := capability) :=
  fst (transact deployed (at_time deployer 1) Init).

(** The round once the deployer has, at time 1 and in one transaction,
    called [init] and cast its own vote, yes with weight 1: the vote is
    counted while the right that [init] gave still lasts, and leaves the
    contract a lasting right on both tallies. *)
Definition opening : transaction (F := capability) :=
  {| timestamp := 1;
     calls := [(deployer, Init); (deployer, ballot deployer 1 1)] |}.

Definition opened : world (F := capability) := execute deployed opening.

(** The opened round once [voterX] has voted yes with weight 5 at time 5. *)
Definition voted : world (F := capability) :=
  fst (transact opened (at_time voterX 5) (ballot voterX 1 5)).

End Mock.


(** ** Auxiliary notions for the properties of the contract *)

(** The voters named by the [VoteCast] events of a log, oldest first. *)
Fixpoint cast_voters (l : list event) : list address :=
  match l with
  | [] => []
  | VoteCast v _ :: rest => v :: cast_voters rest
  | _ :: rest => cast_voters rest
  end.

(** The addresses named by the [VoterRegistered] events of a log. *)
Fixpoint registered_voters (l : list event) : list address :=
  match l with
  | [] => []
  | VoterRegistered v _ :: rest => v :: registered_voters rest
  | _ :: rest => registered_voters rest
  end.

(** What each external function commits when it does not revert:
    [commits w e c w'] holds when call [c], made in world [w] with
    environment [e], passes all the checks of the contract's own text and
    ends in world [w'].  The rights that the library requires on top of
    them depend on the running transaction and are not part of it. *)
Inductive commits {F : FHE.Capability} (w : world) (e : env)
  : call -> world -> Prop :=
| commits_init :
    msg_sender e = admin w ->
    initialized w = false ->
    commits w e Init
      (set_initialized true
         (set_totalNoVotes (FHE.asEuint8 0)
            (set_totalYesVotes (FHE.asEuint8 0) w)))
| commits_registerVoter (voter : address) (x : bytes) :
    msg_sender e = admin w ->
    voter <> 0%N ->
    flag (isRegistered w) voter = false ->
    commits w e (RegisterVoter voter x)
      (set_log (log w ++ [VoterRegistered voter x])
         (set_isRegistered (<[voter := true]> (isRegistered w)) w))
| commits_allowTallyAccess (viewer : address) (x : bytes) :
    msg_sender e = admin w ->
    viewer <> 0%N ->
    commits w e (AllowTallyAccess viewer x)
      (set_log (log w ++ [TallyAccessGranted viewer x])
         (set_permissions
            (FHE.allow (FHE.Euint8 (totalNoVotes w)) viewer
               (FHE.allow (FHE.Euint8 (totalYesVotes w)) viewer
                  (permissions w))) w))
| commits_makeTallyPublic :
    msg_sender e = admin w ->
    commits w e MakeTallyPublic
      (set_permissions
         (FHE.makePubliclyDecryptable (FHE.Euint8 (totalNoVotes w))
            (FHE.makePubliclyDecryptable (FHE.Euint8 (totalYesVotes w))
               (permissions w))) w)
| commits_getEncryptedTally :
    commits w e GetEncryptedTally w
| commits_castVote (vh wh : FHE.externalEuint8) (att x : bytes)
    (vote weight : FHE.euint8) :
    block_timestamp e < votingEndTime w ->
    initialized w = true ->
    flag (hasVoted w) (msg_sender e) = false ->
    FHE.fromExternal (this w) (msg_sender e) vh att = Some vote ->
    FHE.fromExternal (this w) (msg_sender e) wh att = Some weight ->
    commits w e (CastVote vh wh att x) (vote_counted e x vote weight w)
| commits_grantMyVoteDecryptAccess (vh : FHE.externalEuint8) (att : bytes)
    (vote : FHE.euint8) :
    flag (isRegistered w) (msg_sender e) = true ->
    FHE.fromExternal (this w) (msg_sender e) vh att = Some vote ->
    commits w e (GrantMyVoteDecryptAccess vh att)
      (set_permissions
         (FHE.allow (FHE.Euint8 vote) (msg_sender e) (permissions w)) w)
| commits_verifyVote (vh : FHE.externalEuint8) (att : bytes)
    (vote : FHE.euint8) :
    FHE.fromExternal (this w) (msg_sender e) vh att = Some vote ->
    commits w e (VerifyVote vh att)
      (set_permissions
         (FHE.allow
            (FHE.Ebool (FHE.or (FHE.eq vote (FHE.asEuint8 0))
                               (FHE.eq vote (FHE.asEuint8 1))))
            (msg_sender e) (permissions w)) w).

(** A [mapping(address => bool)] [m] is tracked by a list [l] of addresses
    when the addresses mapped to [true] are exactly the members of [l], each
    occurring once. *)
Definition tracks (m : gmap N bool) (l : list address) : Prop :=
  (forall v : address, flag m v = true <-> v ∈ l) /\ NoDup l.


(** The states [castVote] goes through once it has accepted both
    ciphertexts: when it has made both increments and reaches its first
    addition, when it has stored the new yes tally and reaches its second
    addition, and when it returns. *)
Definition increments_made {F : FHE.Capability} (e : env) (x : bytes)
    (vote weight : FHE.euint8) (s : frame) : frame :=
  {| world_of := auto_registered e x (world_of s);
     transient :=
       map (fun h => (h, this (world_of s))) (rev (vote_handles vote weight))
         ++ transient s |}.

Definition yes_added {F : FHE.Capability} (e : env) (x : bytes)
    (vote weight : FHE.euint8) (s : frame) : frame :=
  let yes := FHE.add (totalYesVotes (world_of s)) (FHE.mul vote weight) in
  {| world_of := set_totalYesVotes yes (auto_registered e x (world_of s));
     transient :=
       (FHE.Euint8 yes, this (world_of s))
         :: transient (increments_made e x vote weight s) |}.

Definition vote_recorded {F : FHE.Capability} (e : env) (x : bytes)
    (vote weight : FHE.euint8) (s : frame) : frame :=
  {| world_of := vote_counted e x vote weight (world_of s);
     transient :=
       (FHE.Euint8 (totalNoVotes (vote_counted e x vote weight (world_of s))),
        this (world_of s))
         :: transient (yes_added e x vote weight s) |}.

(** [extends w w']: world [w'] has the address, the admin and the deadline
    of [w], and every flag that is set in [w] is set in [w']. *)
Definition extends {F : FHE.Capability} (w w' : world) : Prop :=
  this w' = this w /\
  admin w' = admin w /\
  votingEndTime w' = votingEndTime w /\
  (initialized w = true -> initialized w' = true) /\
  (forall v, flag (hasVoted w) v = true -> flag (hasVoted w') v = true) /\
  (forall v, flag (isRegistered w) v = true -> flag (isRegistered w') v = true).
(** * The front end

    The TypeScript client of the contract: the helpers of [lib/fhevm], the
    React hook [useConfidentialVoting] and the display helpers of
    [VotingApp].  Calls that leave the program (the relayer SDK, the wallet,
    the chain) are parameters; an [await] is the call it awaits, and a state
    setter of the hook is an update of a record of its state. *)

Module Frontend.

(** A thrown JavaScript value, with its [message]. *)
Inductive exception : Type :=
| Error (message : string)
| RangeError (message : string)
| TypeError (message : string).

Definition message (err : exception) : string :=
  match err with
  | Error m | RangeError m | TypeError m => m
  end.

(** ** [toHexString] *)

(** The digits that [toString(16)] writes, by value. *)
Definition hexDigits : list ascii :=
  String.list_ascii_of_string "0123456789abcdef".

Definition hexDigit (d : N) : ascii :=
  nth (N.to_nat d) hexDigits "f"%char.

Fixpoint toString16_digits (fuel : nat) (n : N) (acc : string) : string :=
  match fuel with
  | O => acc
  | S fuel' =>
      let acc' := String (hexDigit (n mod 16)) acc in
      if N.eqb (n / 16) 0 then acc' else toString16_digits fuel' (n / 16) acc'
  end.

(** [n.toString(16)] for a non-negative integer [n] *)
Definition toString16 (n : N) : string :=
  toString16_digits (S (N.to_nat (N.log2 n))) n "".

(** [s.slice(-k)]: the last [k] characters of [s], all of [s] when it is
    shorter. *)
Definition slice_last (k : nat) (s : string) : string :=
  String.substring (String.length s - k) k s.

(** ["0x" + Array.from(byteArray, b => ("0" + (b & 0xff).toString(16))
    .slice(-2)).join("")] *)
Definition toHexString (byteArray : bytes) : string :=
  "0x" +:+
  String.concat ""
    (map (fun b => slice_last 2 ("0" +:+ toString16 (N.land (Byte.to_N b) 255)))
       byteArray).

(** Reading a hexadecimal digit back: its position among [hexDigits].  Not
    part of the client; used to state that [toHexString] loses nothing. *)
Fixpoint position (c : ascii) (digits : list ascii) (i : N) : option N :=
  match digits with
  | [] => None
  | d :: rest => if Ascii.eqb c d then Some i else position c rest (N.succ i)
  end.

Definition hexValue (c : ascii) : option N := position c hexDigits 0.

Fixpoint bytesOfDigits (s : string) : option bytes :=
  match s with
  | EmptyString => Some []
  | String hi (String lo rest) =>
      match hexValue hi, hexValue lo, bytesOfDigits rest with
      | Some h, Some l, Some bs =>
          match Byte.of_N (16 * h + l) with
          | Some b => Some (b :: bs)
          | None => None
          end
      | _, _, _ => None
      end
  | String _ EmptyString => None
  end.

Definition fromHexString (s : string) : option bytes :=
  match s with
  | String "0" (String "x" digits) => bytesOfDigits digits
  | _ => None
  end.

(** ** JavaScript numbers, as far as comparisons with integers go

    A [number] is an integer, a finite non-integer (which lies strictly
    between two consecutive integers), [NaN] or an infinity. *)
Inductive number : Type :=
| Int (z : Z)
| Between (z : Z)  (* strictly between [z] and [z + 1] *)
| NaN
| Infinity
| NegInfinity.

(** [x === k] for an integer literal [k] *)
Definition strict_eq (x : number) (k : Z) : bool :=
  match x with
  | Int z => Z.eqb z k
  | _ => false
  end.

(** [x < k] for an integer literal [k] *)
Definition less (x : number) (k : Z) : bool :=
  match x with
  | Int z | Between z => Z.ltb z k
  | NegInfinity => true
  | NaN | Infinity => false
  end.

(** [x > k] for an integer literal [k] *)
Definition greater (x : number) (k : Z) : bool :=
  match x with
  | Int z => Z.ltb k z
  | Between z => Z.leb k z
  | Infinity => true
  | NaN | NegInfinity => false
  end.

(** ** [sendFHETransaction] *)

(** The method the helper ends up calling on the contract, with the
    [gasLimit] override it passes; [params[i]] is [None] when the array is
    too short. *)
Inductive method_call : Type :=
| CastVoteCall (voteHandleBytes weightHandleBytes attestation extraData
                : option string) (gasLimit : Z)
| InitCall (gasLimit : Z)
| MakeTallyPublicCall (gasLimit : Z).

Definition gasLimits : gmap string Z :=
  {[ "castVote" := 5000000; "init" := 1000000; "makeTallyPublic" := 1000000 ]}.

(** What the hook mirrors of the contract, as [readContractState] returns
    it; [cs_endTime] is the number [Number(endTime)]. *)
Record chain_state : Type := {
  cs_initialized : bool;
  cs_registered : bool;
  cs_voted : bool;
  cs_admin : string;
  cs_endTime : Z
}.

(** The state of the hook [useConfidentialVoting]; [contract] and the
    signer are only tested for presence. *)
Record hook : Type := {
  contract : bool;
  isDeployed : option bool;
  isInitialized : bool;
  isRegistered : bool;
  hasVoted : bool;
  isAdmin : bool;
  votingEndTime : option Z;
  error : option string;
  isLoading : bool;
  isEncrypting : bool;
  isSubmitting : bool
}.

Definition setIsInitialized (b : bool) (h : hook) : hook :=
  {| contract := contract h; isDeployed := isDeployed h; isInitialized := b;
     isRegistered := isRegistered h; hasVoted := hasVoted h;
     isAdmin := isAdmin h; votingEndTime := votingEndTime h;
     error := error h; isLoading := isLoading h;
     isEncrypting := isEncrypting h; isSubmitting := isSubmitting h |}.

Definition setIsRegistered (b : bool) (h : hook) : hook :=
  {| contract := contract h; isDeployed := isDeployed h;
     isInitialized := isInitialized h;
     isRegistered := b; hasVoted := hasVoted h;
     isAdmin := isAdmin h; votingEndTime := votingEndTime h;
     error := error h; isLoading := isLoading h;
     isEncrypting := isEncrypting h; isSubmitting := isSubmitting h |}.

Definition setHasVoted (b : bool) (h : hook) : hook :=
  {| contract := contract h; isDeployed := isDeployed h;
     isInitialized := isInitialized h;
     isRegistered := isRegistered h; hasVoted := b;
     isAdmin := isAdmin h; votingEndTime := votingEndTime h;
     error := error h; isLoading := isLoading h;
     isEncrypting := isEncrypting h; isSubmitting := isSubmitting h |}.

Definition setIsAdmin (b : bool) (h : hook) : hook :=
  {| contract := contract h; isDeployed := isDeployed h;
     isInitialized := isInitialized h;
     isRegistered := isRegistered h; hasVoted := hasVoted h;
     isAdmin := b; votingEndTime := votingEndTime h;
     error := error h; isLoading := isLoading h;
     isEncrypting := isEncrypting h; isSubmitting := isSubmitting h |}.

Definition setVotingEndTime (t : option Z) (h : hook) : hook :=
  {| contract := contract h; isDeployed := isDeployed h;
     isInitialized := isInitialized h;
     isRegistered := isRegistered h; hasVoted := hasVoted h;
     isAdmin := isAdmin h; votingEndTime := t;
     error := error h; isLoading := isLoading h;
     isEncrypting := isEncrypting h; isSubmitting := isSubmitting h |}.

Definition setError (m : option string) (h : hook) : hook :=
  {| contract := contract h; isDeployed := isDeployed h;
     isInitialized := isInitialized h;
     isRegistered := isRegistered h; hasVoted := hasVoted h;
     isAdmin := isAdmin h; votingEndTime := votingEndTime h;
     error := m; isLoading := isLoading h;
     isEncrypting := isEncrypting h; isSubmitting := isSubmitting h |}.

Definition setIsLoading (b : bool) (h : hook) : hook :=
  {| contract := contract h; isDeployed := isDeployed h;
     isInitialized := isInitialized h;
     isRegistered := isRegistered h; hasVoted := hasVoted h;
     isAdmin := isAdmin h; votingEndTime := votingEndTime h;
     error := error h; isLoading := b;
     isEncrypting := isEncrypting h; isSubmitting := isSubmitting h |}.

(** How an [async] function of the hook ends. *)
Inductive settled : Type :=
| Resolved
| Rejected (err : exception).

(** [s.toLowerCase()] on the letters [A]-[Z]; the strings compared in the
    hook are hexadecimal addresses. *)
Definition lowerChar (c : ascii) : ascii :=
  let n := N_of_ascii c in
  if N.leb 65 n && N.leb n 90 then ascii_of_N (n + 32) else c.

Fixpoint toLowerCase (s : string) : string :=
  match s with
  | EmptyString => EmptyString
  | String c rest => String (lowerChar c) (toLowerCase rest)
  end.

Section Client.

(** The relayer SDK: what [initializeSDK()] yields.  [signerAddress] is
    the address of the wallet's signer.  An input buffer is known by the
    contract and the user it was created for and by the values added to it
    so far: [createEncryptedInput contract user] tells whether creating it
    throws, [add8 values v] whether adding [v] to a buffer that holds
    [values] throws, and [encrypt contract user values] is what
    [buffer.encrypt()] yields. *)
Record ciphertexts : Type := {
  handles : list bytes;
  inputProof : bytes
}.

Record sdk : Type := {
  signerAddress : string + exception;
  createEncryptedInput : string -> string -> option exception;
  add8 : list Z -> Z -> option exception;
  encrypt : string -> string -> list Z -> ciphertexts + exception
}.

Variable initializeSDK : sdk + exception.

(** the message of the [RangeError] that [BigInt(x)] throws *)
Variable bigIntMessage : number -> string.

(** [BigInt(x)] *)
Definition BigInt (x : number) : Z + exception :=
  match x with
  | Int z => inl z
  | _ => inr (RangeError (bigIntMessage x))
  end.

Record encrypted_vote : Type := {
  voteHandleBytes : string;
  weightHandleBytes : string;
  attestation : string
}.

(** the message of the [TypeError] that [Array.from(undefined)] throws;
    its wording is the engine's *)
Variable notIterableMessage : string.

(** [toHexString(ciphertexts.handles[i])] *)
Definition handleHex (c : ciphertexts) (i : nat) : string + exception :=
  match handles c !! i with
  | Some h => inl (toHexString h)
  | None => inr (TypeError notIterableMessage)
  end.

(** [encryptVote(choice, weight, contractAddress, userAddress)]: the two
    validations, then the SDK, the address, the buffer, and each
    [buffer.add8(BigInt(x))] in turn, the conversion before the call. *)
Definition encryptVote (choice weight : number) (contractAddress : string)
    (userAddress : option string) : encrypted_vote + exception :=
  if negb (strict_eq choice 0) && negb (strict_eq choice 1)
  then inr (Error "Vote choice must be 0 or 1")
  else if less weight 1 || greater weight 10
  then inr (Error "Weight must be between 1–10")
  else
    match initializeSDK with
    | inr err => inr err
    | inl inst =>
        let addr :=
          match userAddress with
          | Some a => if String.eqb a "" then signerAddress inst else inl a
          | None => signerAddress inst
          end in
        match addr with
        | inr err => inr err
        | inl addr =>
            match createEncryptedInput inst contractAddress addr with
            | Some err => inr err
            | None =>
                match BigInt choice with
                | inr err => inr err
                | inl c =>
                    match add8 inst [] c with
                    | Some err => inr err
                    | None =>
                        match BigInt weight with
                        | inr err => inr err
                        | inl wt =>
                            match add8 inst [c] wt with
                            | Some err => inr err
                            | None =>
                                match encrypt inst contractAddress addr [c; wt] with
                                | inr err => inr err
                                | inl cts =>
                                    match handleHex cts 0 with
                                    | inr err => inr err
                                    | inl vote =>
                                        match handleHex cts 1 with
                                        | inr err => inr err
                                        | inl wgt =>
                                            inl {| voteHandleBytes := vote;
                                                   weightHandleBytes := wgt;
                                                   attestation :=
                                                     toHexString (inputProof cts) |}
                                        end
                                    end
                                end
                            end
                        end
                    end
                end
            end
        end
    end.

(** The transaction response of ethers, the call that sends a method to the
    chain, and [tx.wait()]. *)
Variable tx : Type.
Variable submit : method_call -> tx + exception.
Variable wait : tx -> option exception.

(** [sendFHETransaction(contract, methodName, params, signer)]; its [catch]
    logs and rethrows. *)
Definition sendFHETransaction (methodName : string) (params : list string)
  : tx + exception :=
  let gasLimit :=
    match gasLimits !! methodName with
    | Some g => if Z.eqb g 0 then 1000000 else g
    | None => 1000000
    end in
  if String.eqb methodName "castVote"
  then submit (CastVoteCall (params !! 0%nat) (params !! 1%nat)
                 (params !! 2%nat) (params !! 3%nat) gasLimit)
  else if String.eqb methodName "init"
  then submit (InitCall gasLimit)
  else if String.eqb methodName "makeTallyPublic"
  then submit (MakeTallyPublicCall gasLimit)
  else inr (Error ("Unknown method: " +:+ methodName)).

(** The outcome of the [i]-th attempt to read the five public getters of
    the contract at once. *)
Variable attempt : nat -> chain_state + exception.

(** The loop of [readContractState]: [remaining] iterations are left of
    [retries], so the index is [i = retries - remaining]. *)
Fixpoint readContractState_loop (retries remaining : nat)
  : chain_state + exception :=
  match remaining with
  | O => inr (Error "Failed to read contract state after retries")
  | S remaining' =>
      let i := (retries - remaining)%nat in
      match attempt i with
      | inl state => inl state
      | inr err =>
          if Nat.eqb i (retries - 1) then inr err
          else readContractState_loop retries remaining'
      end
  end.

(** [readContractState(contract, address, retries = 3, delay = 1000)] *)
Definition readContractState (retries : nat) : chain_state + exception :=
  readContractState_loop retries retries.

(** The props of the hook that its functions test. *)
Variable ethersSigner : bool.
Variable userAddress : option string.

(** [refreshContractState()] *)
Definition refreshContractState (h : hook) : hook :=
  match contract h, userAddress with
  | true, Some user =>
      if String.eqb user "" then h
      else
        match readContractState 3 with
        | inl state =>
            setVotingEndTime (Some (cs_endTime state))
              (setIsAdmin
                 (String.eqb (toLowerCase user) (toLowerCase (cs_admin state)))
                 (setHasVoted (cs_voted state)
                    (setIsRegistered (cs_registered state)
                       (setIsInitialized (cs_initialized state) h))))
        | inr _ => h
        end
  | _, _ => h
  end.

(** [initializeContract()] *)
Definition initializeContract (h : hook) : hook * settled :=
  if negb (contract h) || negb ethersSigner
  then (setError (Some "Contract or signer not ready") h, Resolved)
  else
    let h1 := setError None (setIsLoading true h) in
    let sent :=
      match sendFHETransaction "init" [] with
      | inl t => match wait t with None => None | Some err => Some err end
      | inr err => Some err
      end in
    match sent with
    | None => (setIsLoading false (setIsInitialized true h1), Resolved)
    | Some err =>
        (setIsLoading false
           (setError (Some ("Initialization failed: " +:+ message err)) h1),
         Resolved)
    end.

(** [registerVoter(voterAddress)] of the hook *)
Definition registerVoter (voterAddress : string) (h : hook) : hook * settled :=
  if negb (contract h) || negb ethersSigner
  then (setError (Some "Contract or signer not ready") h, Resolved)
  else
    let h1 := setError None (setIsLoading true h) in
    let sent :=
      match sendFHETransaction "registerVoter" [voterAddress; "0x"] with
      | inl t => match wait t with None => None | Some err => Some err end
      | inr err => Some err
      end in
    match sent with
    | None => (setIsLoading false (refreshContractState h1), Resolved)
    | Some err =>
        (setIsLoading false
           (setError (Some ("Voter registration failed: " +:+ message err)) h1),
         Rejected err)
    end.

(** [grantTallyAccess(viewerAddress)] of the hook *)
Definition grantTallyAccess (viewerAddress : string) (h : hook) : hook * settled :=
  if negb (contract h) || negb ethersSigner
  then (setError (Some "Contract or signer not ready") h, Resolved)
  else
    let h1 := setError None (setIsLoading true h) in
    let sent :=
      match sendFHETransaction "allowTallyAccess" [viewerAddress; "0x"] with
      | inl t => match wait t with None => None | Some err => Some err end
      | inr err => Some err
      end in
    match sent with
    | None => (setIsLoading false h1, Resolved)
    | Some err =>
        (setIsLoading false
           (setError (Some ("Grant tally access failed: " +:+ message err)) h1),
         Rejected err)
    end.

End Client.

(** ** Numbers that hold integers

    The hook keeps the deadline as a JavaScript [number], a double.  The
    doubles that are integers are written here as the integers they are.
    Every integer of magnitude up to [2^53] is a double; beyond that the
    doubles are sparser. *)

Definition MAX_SAFE_INTEGER : Z := 2 ^ 53 - 1.


(** ** Display helpers of [VotingApp]

    [votingEndTime] is the hook's deadline, [null] or a number holding an
    integer; [now] is the value of [Math.floor(Date.now() / 1000)]. *)

(** [formatVotingEndTime()].  The test [timeLeft <= 0] is exact on all
    doubles.  The hours and minutes are computed in double arithmetic,
    which is that of the integers as long as the deadline is at most
    [MAX_SAFE_INTEGER] and the clock is not negative; beyond that the code
    computes on rounded values and prints large numbers in exponent
    notation, which is left out here: the result is [None]. *)
Definition formatVotingEndTime (votingEndTime : option Z) (now : Z)
  : option string :=
  match votingEndTime with
  | None => Some "Loading..."
  | Some t =>
      if Z.eqb t 0 then Some "Loading..."
      else
        let timeLeft := t - now in
        if Z.leb timeLeft 0 then Some "Voting ended"
        else if (0 <=? now) && (t <=? MAX_SAFE_INTEGER)
        then
          let hours := timeLeft / 3600 in
          let minutes := (timeLeft mod 3600) / 60 in
          Some ("Ends in " +:+ pretty hours +:+ "h " +:+ pretty minutes +:+ "m")
        else None
  end.


(** ** Concrete collaborators, to run the client on *)

(** An SDK that answers every encryption with the same two handles. *)
Definition fixed_sdk : sdk :=
  {| signerAddress := inl "0xsigner";
     createEncryptedInput := fun _ _ => None;
     add8 := fun _ _ => None;
     encrypt := fun _ _ _ =>
       inl {| handles := [[Byte.x01]; [Byte.x02]]; inputProof := [Byte.x03] |} |}.

(** The hook of an admin whose wallet is connected and whose contract is
    initialised. *)
Definition connected : hook :=
  {| contract := true; isDeployed := Some true; isInitialized := true;
     isRegistered := false; hasVoted := false; isAdmin := true;
     votingEndTime := Some 10; error := None; isLoading := false;
     isEncrypting := false; isSubmitting := false |}.

(** Two failed reads followed by a successful one. *)
Definition third_time_lucky (i : nat) : chain_state + exception :=
  if Nat.leb 2 i
  then inl {| cs_initialized := true; cs_registered := false; cs_voted := false;
              cs_admin := "0xadmin"; cs_endTime := 10 |}
  else inr (Error "network").

End Frontend.


(** * Properties *)

(** Unfolds a function of the contract down to the [match]es and [if]s of
    the monad. *)
Ltac unfold_exec :=
  unfold transact, perform, dispatch, castVote, init, registerVoter,
    allowTallyAccess, makeTallyPublic, getEncryptedTally,
    grantMyVoteDecryptAccess, verifyVote, votingOpen, onlyAdmin,
    FHE_allowThis, FHE_allow, FHE_makePubliclyDecryptable,
    FHE_asEuint8, FHE_fromExternal, FHE_add, FHE_sub, FHE_mul, FHE_eq, FHE_or,
    operand, allowTransient, emit, require, read, write,
    mbind, mret, exec_bind, exec_ret, bind, ret in *.

(** Splits on the first test the goal is stuck on. *)
Ltac split_test :=
  match goal with
  | |- context [if ?b then _ else _] => destruct b eqn:?
  | |- context [match ?o with Some _ => _ | None => _ end] => destruct o eqn:?
  end; simpl.

(** Discharges a check of the library on a handle that the running
    transaction has been given a right on. *)
Ltac pass_check :=
  match goal with
  | |- context [isAllowed ?h ?a ?s] =>
      replace (isAllowed h a s) with true
        by (symmetry; unfold isAllowed; apply bool_decide_eq_true_2; simpl;
            rewrite ?elem_of_cons; auto 12)
  end; simpl.

Section Proofs.
Context {F : FHE.Capability}.

Lemma flag_insert (m : gmap N bool) (a v : address) :
  flag (<[a := true]> m) v = if decide (a = v) then true else flag m v.
Proof. unfold flag. rewrite lookup_insert. by case_decide. Qed.

Lemma flag_insert_eq (m : gmap N bool) (a : address) :
  flag (<[a := true]> m) a = true.
Proof. rewrite flag_insert. by case_decide. Qed.

Lemma flag_insert_mono (m : gmap N bool) (a v : address) :
  flag m v = true -> flag (<[a := true]> m) v = true.
Proof. intros H. rewrite flag_insert. by case_decide. Qed.

Lemma isAllowed_elem (h : FHE.handle) (a : address) (s : frame) :
  isAllowed h a s = true <->
  (h, a) ∈ transient s \/ (h, a) ∈ FHE.allowed (permissions (world_of s)).
Proof.
  unfold isAllowed. rewrite bool_decide_eq_true, elem_of_app. tauto.
Qed.

(** A transaction starts with the lasting rights only. *)
Lemma isAllowed_fresh (h : FHE.handle) (w : world) :
  isAllowed h (this w) (fresh w) = true <-> holds w h.
Proof.
  rewrite isAllowed_elem. unfold holds. simpl. rewrite elem_of_nil. tauto.
Qed.


(** *** What [castVote] does, check by check *)

Lemma castVote_closed (s : frame) (e : env) vh wh att x :
  votingEndTime (world_of s) <= block_timestamp e ->
  castVote e vh wh att x s = Reverted Voting_closed s.
Proof.
  intros H. unfold_exec.
  assert ((block_timestamp e <? votingEndTime (world_of s)) = false) as -> by lia.
  reflexivity.
Qed.

Lemma castVote_not_initialized (s : frame) (e : env) vh wh att x :
  block_timestamp e < votingEndTime (world_of s) ->
  initialized (world_of s) = false ->
  castVote e vh wh att x s = Reverted Contract_not_initialized s.
Proof.
  intros H Hi. unfold_exec.
  assert ((block_timestamp e <? votingEndTime (world_of s)) = true) as -> by lia.
  rewrite Hi. reflexivity.
Qed.

Lemma castVote_already_voted (s : frame) (e : env) vh wh att x :
  block_timestamp e < votingEndTime (world_of s) ->
  initialized (world_of s) = true ->
  flag (hasVoted (world_of s)) (msg_sender e) = true ->
  castVote e vh wh att x s
  = Reverted Already_voted
      {| world_of := auto_registered e x (world_of s);
         transient := transient s |}.
Proof.
  intros H Hi Hv. unfold_exec. unfold auto_registered.
  assert ((block_timestamp e <? votingEndTime (world_of s)) = true) as -> by lia.
  rewrite Hi. simpl.
  destruct (flag (isRegistered (world_of s)) (msg_sender e)); simpl;
    rewrite Hv; try reflexivity.
  by destruct s.
Qed.

Lemma castVote_invalid_vote (s : frame) (e : env) vh wh att x :
  block_timestamp e < votingEndTime (world_of s) ->
  initialized (world_of s) = true ->
  flag (hasVoted (world_of s)) (msg_sender e) = false ->
  FHE.fromExternal (this (world_of s)) (msg_sender e) vh att = None ->
  castVote e vh wh att x s
  = Reverted Invalid_ciphertext
      {| world_of := auto_registered e x (world_of s);
         transient := transient s |}.
Proof.
  intros H Hi Hv Hx. unfold_exec. unfold auto_registered.
  assert ((block_timestamp e <? votingEndTime (world_of s)) = true) as -> by lia.
  rewrite Hi. simpl.
  destruct (flag (isRegistered (world_of s)) (msg_sender e)); simpl;
    rewrite Hv; simpl; rewrite Hx; try reflexivity.
  by destruct s.
Qed.

Lemma castVote_invalid_weight (s : frame) (e : env) vh wh att x vote :
  block_timestamp e < votingEndTime (world_of s) ->
  initialized (world_of s) = true ->
  flag (hasVoted (world_of s)) (msg_sender e) = false ->
  FHE.fromExternal (this (world_of s)) (msg_sender e) vh att = Some vote ->
  FHE.fromExternal (this (world_of s)) (msg_sender e) wh att = None ->
  castVote e vh wh att x s
  = Reverted Invalid_ciphertext
      {| world_of := auto_registered e x (world_of s);
         transient := (FHE.Euint8 vote, this (world_of s)) :: transient s |}.
Proof.
  intros H Hi Hv Hx Hy. unfold_exec. unfold auto_registered.
  assert ((block_timestamp e <? votingEndTime (world_of s)) = true) as -> by lia.
  rewrite Hi. simpl.
  destruct (flag (isRegistered (world_of s)) (msg_sender e)); simpl;
    rewrite Hv; simpl; rewrite Hx; simpl; rewrite Hy; reflexivity.
Qed.

Lemma castVote_past_checks (s : frame) (e : env) vh wh att x vote weight :
  block_timestamp e < votingEndTime (world_of s) ->
  initialized (world_of s) = true ->
  flag (hasVoted (world_of s)) (msg_sender e) = false ->
  FHE.fromExternal (this (world_of s)) (msg_sender e) vh att = Some vote ->
  FHE.fromExternal (this (world_of s)) (msg_sender e) wh att = Some weight ->
  castVote e vh wh att x s =
  if isAllowed (FHE.Euint8 (totalYesVotes (world_of s))) (this (world_of s))
       (increments_made e x vote weight s)
  then
    if isAllowed (FHE.Euint8 (totalNoVotes (world_of s))) (this (world_of s))
         (yes_added e x vote weight s)
    then Done tt (vote_recorded e x vote weight s)
    else Reverted ACL_not_allowed (yes_added e x vote weight s)
  else Reverted ACL_not_allowed (increments_made e x vote weight s).
Proof.
  intros H Hi Hv Hx Hy. unfold_exec.
  unfold vote_recorded, yes_added, increments_made, vote_counted, auto_registered.
  assert ((block_timestamp e <? votingEndTime (world_of s)) = true) as -> by lia.
  rewrite Hi. simpl.
  destruct (flag (isRegistered (world_of s)) (msg_sender e)); simpl;
    rewrite Hv; simpl; rewrite Hx; simpl; rewrite Hy; simpl.
  all: repeat pass_check.
  all: destruct (isAllowed (FHE.Euint8 (totalYesVotes (world_of s))) _ _);
    simpl; [| reflexivity].
  all: repeat pass_check.
  all: destruct (isAllowed (FHE.Euint8 (totalNoVotes (world_of s))) _ _);
    simpl; [| reflexivity].
  all: repeat pass_check.
  all: reflexivity.
Qed.

Lemma auto_registered_frame (e : env) (x : bytes) (w : world) :
  this (auto_registered e x w) = this w /\
  admin (auto_registered e x w) = admin w /\
  votingEndTime (auto_registered e x w) = votingEndTime w /\
  initialized (auto_registered e x w) = initialized w /\
  hasVoted (auto_registered e x w) = hasVoted w /\
  totalYesVotes (auto_registered e x w) = totalYesVotes w /\
  totalNoVotes (auto_registered e x w) = totalNoVotes w /\
  permissions (auto_registered e x w) = permissions w.
Proof.
  unfold auto_registered.
  destruct (flag (isRegistered w) (msg_sender e)); simpl; auto 10.
Qed.

Lemma auto_registered_sender (e : env) (x : bytes) (w : world) :
  flag (isRegistered (auto_registered e x w)) (msg_sender e) = true.
Proof.
  unfold auto_registered.
  destruct (flag (isRegistered w) (msg_sender e)) eqn:Hr; simpl;
    [exact Hr | apply flag_insert_eq].
Qed.

Lemma auto_registered_mono (e : env) (x : bytes) (w : world) (v : address) :
  flag (isRegistered w) v = true ->
  flag (isRegistered (auto_registered e x w)) v = true.
Proof.
  unfold auto_registered.
  destruct (flag (isRegistered w) (msg_sender e)); simpl;
    auto using flag_insert_mono.
Qed.

(** A right the contract has when [castVote] starts is still there at both
    additions. *)
Lemma isAllowed_increments_made (h : FHE.handle) (s : frame) (e : env) x vote weight :
  isAllowed h (this (world_of s)) s = true ->
  isAllowed h (this (world_of s)) (increments_made e x vote weight s) = true.
Proof.
  rewrite !isAllowed_elem. unfold increments_made. simpl.
  destruct (auto_registered_frame e x (world_of s))
    as (_ & _ & _ & _ & _ & _ & _ & ->).
  rewrite !elem_of_cons. tauto.
Qed.

Lemma isAllowed_yes_added (h : FHE.handle) (s : frame) (e : env) x vote weight :
  isAllowed h (this (world_of s)) s = true ->
  isAllowed h (this (world_of s)) (yes_added e x vote weight s) = true.
Proof.
  rewrite !isAllowed_elem. unfold yes_added, increments_made. simpl.
  destruct (auto_registered_frame e x (world_of s))
    as (_ & _ & _ & _ & _ & _ & _ & ->).
  rewrite !elem_of_cons. tauto.
Qed.

(** With a right on both tallies, a vote that passes the checks of the
    contract is counted. *)
Lemma castVote_counted (s : frame) (e : env) vh wh att x vote weight :
  block_timestamp e < votingEndTime (world_of s) ->
  initialized (world_of s) = true ->
  flag (hasVoted (world_of s)) (msg_sender e) = false ->
  FHE.fromExternal (this (world_of s)) (msg_sender e) vh att = Some vote ->
  FHE.fromExternal (this (world_of s)) (msg_sender e) wh att = Some weight ->
  isAllowed (FHE.Euint8 (totalYesVotes (world_of s))) (this (world_of s)) s = true ->
  isAllowed (FHE.Euint8 (totalNoVotes (world_of s))) (this (world_of s)) s = true ->
  castVote e vh wh att x s = Done tt (vote_recorded e x vote weight s).
Proof.
  intros H Hi Hv Hx Hy Hyes Hno.
  rewrite (castVote_past_checks s e vh wh att x vote weight) by assumption.
  rewrite isAllowed_increments_made, isAllowed_yes_added by assumption.
  reflexivity.
Qed.

(** Every run of [castVote] is one of these. *)
Lemma castVote_cases (s : frame) (e : env) vh wh att x :
  (votingEndTime (world_of s) <= block_timestamp e /\
   castVote e vh wh att x s = Reverted Voting_closed s) \/
  (block_timestamp e < votingEndTime (world_of s) /\
   initialized (world_of s) = false /\
   castVote e vh wh att x s = Reverted Contract_not_initialized s) \/
  (exists (r : revert_reason) (s' : frame),
     block_timestamp e < votingEndTime (world_of s) /\
     initialized (world_of s) = true /\
     castVote e vh wh att x s = Reverted r s' /\
     (r = Already_voted \/ r = Invalid_ciphertext \/ r = ACL_not_allowed) /\
     (world_of s' = auto_registered e x (world_of s) \/
      exists yes : FHE.euint8,
        world_of s' = set_totalYesVotes yes (auto_registered e x (world_of s)))) \/
  (exists vote weight,
     block_timestamp e < votingEndTime (world_of s) /\
     initialized (world_of s) = true /\
     flag (hasVoted (world_of s)) (msg_sender e) = false /\
     FHE.fromExternal (this (world_of s)) (msg_sender e) vh att = Some vote /\
     FHE.fromExternal (this (world_of s)) (msg_sender e) wh att = Some weight /\
     castVote e vh wh att x s = Done tt (vote_recorded e x vote weight s)).
Proof.
  destruct (Z_lt_le_dec (block_timestamp e) (votingEndTime (world_of s)))
    as [Ht | Ht]; [| left; eauto using castVote_closed].
  right.
  destruct (initialized (world_of s)) eqn:Hi;
    [| left; eauto using castVote_not_initialized].
  right.
  destruct (flag (hasVoted (world_of s)) (msg_sender e)) eqn:Hv.
  { left. eexists _, _. split; [exact Ht |]. split; [reflexivity |].
    split; [eauto using castVote_already_voted |]. split; [auto | left; reflexivity]. }
  destruct (FHE.fromExternal (this (world_of s)) (msg_sender e) vh att)
    as [vote |] eqn:Hx.
  2: { left. eexists _, _. split; [exact Ht |]. split; [reflexivity |].
       split; [eauto using castVote_invalid_vote |]. split; [auto | left; reflexivity]. }
  destruct (FHE.fromExternal (this (world_of s)) (msg_sender e) wh att)
    as [weight |] eqn:Hy.
  2: { left. eexists _, _. split; [exact Ht |]. split; [reflexivity |].
       split; [eauto using castVote_invalid_weight |]. split; [auto | left; reflexivity]. }
  pose proof (castVote_past_checks s e vh wh att x vote weight Ht Hi Hv Hx Hy)
    as Hrun.
  destruct (isAllowed (FHE.Euint8 (totalYesVotes (world_of s))) _
              (increments_made e x vote weight s)).
  2: { left. eexists _, _. split; [exact Ht |]. split; [reflexivity |].
       split; [exact Hrun |]. split; [auto | left; reflexivity]. }
  destruct (isAllowed (FHE.Euint8 (totalNoVotes (world_of s))) _
              (yes_added e x vote weight s)).
  2: { left. eexists _, _. split; [exact Ht |]. split; [reflexivity |].
       split; [exact Hrun |]. split; [auto | right; eexists; reflexivity]. }
  right. exists vote, weight. auto 10.
Qed.

(** *** What one call can change *)

Lemma perform_failed (s s' : frame) (e : env) (c : call) (r : revert_reason) :
  perform s e c = (s', Failed r) -> s' = s.
Proof.
  unfold perform. destruct (dispatch e c s); intros H; inversion H.
  reflexivity.
Qed.

Lemma transact_failed (w w' : world) (e : env) (c : call) (r : revert_reason) :
  transact w e c = (w', Failed r) -> w' = w.
Proof.
  unfold transact. destruct (perform (fresh w) e c) as [s' st] eqn:Hp.
  simpl. intros H. inversion H. subst st.
  by rewrite (perform_failed _ _ _ _ _ Hp).
Qed.

(** *** The other functions, test by test *)

Lemma init_cases (s : frame) (e : env) :
  init e s =
  if N.eqb (msg_sender e) (admin (world_of s))
  then if initialized (world_of s)
       then Reverted Already_initialized s
       else Done tt
              {| world_of :=
                   set_initialized true
                     (set_totalNoVotes (FHE.asEuint8 0)
                        (set_totalYesVotes (FHE.asEuint8 0) (world_of s)));
                 transient :=
                   (FHE.Euint8 (FHE.asEuint8 0), this (world_of s))
                     :: (FHE.Euint8 (FHE.asEuint8 0), this (world_of s))
                     :: transient s |}
  else Reverted Only_admin s.
Proof.
  unfold_exec. destruct (N.eqb (msg_sender e) (admin (world_of s))); simpl;
    [destruct (initialized (world_of s)) |]; reflexivity.
Qed.

Lemma registerVoter_cases (s : frame) (e : env) (voter : address) (x : bytes) :
  registerVoter e voter x s =
  if N.eqb (msg_sender e) (admin (world_of s))
  then if N.eqb voter 0
       then Reverted Zero_address s
       else if flag (isRegistered (world_of s)) voter
            then Reverted Already_registered s
            else Done tt
                   {| world_of :=
                        set_log (log (world_of s) ++ [VoterRegistered voter x])
                          (set_isRegistered
                             (<[voter := true]> (isRegistered (world_of s)))
                             (world_of s));
                      transient := transient s |}
  else Reverted Only_admin s.
Proof.
  unfold_exec. destruct (N.eqb (msg_sender e) (admin (world_of s))); simpl;
    [destruct (N.eqb voter 0); simpl;
     [| destruct (flag (isRegistered (world_of s)) voter)] |]; reflexivity.
Qed.

(** The second grant of [allowTallyAccess] is checked after the first has
    been recorded; that record cannot be what lets it pass. *)
Lemma isAllowed_after_grant (h h' : FHE.handle) (viewer : address) (s : frame) :
  isAllowed h (this (world_of s)) s = true ->
  isAllowed h' (this (world_of s))
    {| world_of :=
         set_permissions (FHE.allow h viewer (permissions (world_of s)))
           (world_of s);
       transient := transient s |}
  = isAllowed h' (this (world_of s)) s.
Proof.
  intros Hh. apply eq_true_iff_eq. rewrite !isAllowed_elem. simpl.
  rewrite elem_of_app, list_elem_of_singleton.
  apply isAllowed_elem in Hh. split; [| tauto].
  intros [Ht | [Hp | Heq]]; auto.
  inversion Heq. by subst.
Qed.

Lemma allowTallyAccess_cases (s : frame) (e : env) (viewer : address) (x : bytes) :
  allowTallyAccess e viewer x s =
  if N.eqb (msg_sender e) (admin (world_of s))
  then if N.eqb viewer 0
       then Reverted Zero_address s
       else if isAllowed (FHE.Euint8 (totalYesVotes (world_of s)))
                 (this (world_of s)) s
            then if isAllowed (FHE.Euint8 (totalNoVotes (world_of s)))
                      (this (world_of s)) s
                 then Done tt
                        {| world_of :=
                             set_log
                               (log (world_of s) ++ [TallyAccessGranted viewer x])
                               (set_permissions
                                  (FHE.allow
                                     (FHE.Euint8 (totalNoVotes (world_of s)))
                                     viewer
                                     (FHE.allow
                                        (FHE.Euint8 (totalYesVotes (world_of s)))
                                        viewer (permissions (world_of s))))
                                  (world_of s));
                           transient := transient s |}
                 else Reverted Sender_not_allowed
                        {| world_of :=
                             set_permissions
                               (FHE.allow
                                  (FHE.Euint8 (totalYesVotes (world_of s)))
                                  viewer (permissions (world_of s)))
                               (world_of s);
                           transient := transient s |}
            else Reverted Sender_not_allowed s
  else Reverted Only_admin s.
Proof.
  unfold_exec. destruct (N.eqb (msg_sender e) (admin (world_of s))); simpl;
    [| reflexivity].
  destruct (N.eqb viewer 0); simpl; [reflexivity |].
  destruct (isAllowed (FHE.Euint8 (totalYesVotes (world_of s))) _ s) eqn:Hyes;
    simpl; [| reflexivity].
  rewrite (isAllowed_after_grant _ _ viewer s Hyes).
  destruct (isAllowed (FHE.Euint8 (totalNoVotes (world_of s))) _ s);
    reflexivity.
Qed.

Lemma makeTallyPublic_cases (s : frame) (e : env) :
  makeTallyPublic e s =
  if N.eqb (msg_sender e) (admin (world_of s))
  then if isAllowed (FHE.Euint8 (totalYesVotes (world_of s)))
            (this (world_of s)) s
       then if isAllowed (FHE.Euint8 (totalNoVotes (world_of s)))
                 (this (world_of s)) s
            then Done tt
                   {| world_of :=
                        set_permissions
                          (FHE.makePubliclyDecryptable
                             (FHE.Euint8 (totalNoVotes (world_of s)))
                             (FHE.makePubliclyDecryptable
                                (FHE.Euint8 (totalYesVotes (world_of s)))
                                (permissions (world_of s))))
                          (world_of s);
                      transient := transient s |}
            else Reverted Sender_not_allowed
                   {| world_of :=
                        set_permissions
                          (FHE.makePubliclyDecryptable
                             (FHE.Euint8 (totalYesVotes (world_of s)))
                             (permissions (world_of s)))
                          (world_of s);
                      transient := transient s |}
       else Reverted Sender_not_allowed s
  else Reverted Only_admin s.
Proof.
  unfold_exec. destruct (N.eqb (msg_sender e) (admin (world_of s))); simpl;
    [| reflexivity].
  destruct (isAllowed (FHE.Euint8 (totalYesVotes (world_of s))) _ s) eqn:Hyes;
    simpl; [| reflexivity].
  change (isAllowed (FHE.Euint8 (totalNoVotes (world_of s))) (this (world_of s))
            {| world_of := _; transient := transient s |})
    with (isAllowed (FHE.Euint8 (totalNoVotes (world_of s)))
            (this (world_of s)) s).
  destruct (isAllowed (FHE.Euint8 (totalNoVotes (world_of s))) _ s);
    reflexivity.
Qed.

Lemma grantMyVoteDecryptAccess_cases (s : frame) (e : env)
    (vh : FHE.externalEuint8) (att : bytes) :
  grantMyVoteDecryptAccess e vh att s =
  if flag (isRegistered (world_of s)) (msg_sender e)
  then match FHE.fromExternal (this (world_of s)) (msg_sender e) vh att with
       | Some vote =>
           Done tt
             {| world_of :=
                  set_permissions
                    (FHE.allow (FHE.Euint8 vote) (msg_sender e)
                       (permissions (world_of s)))
                    (world_of s);
                transient :=
                  (FHE.Euint8 vote, this (world_of s)) :: transient s |}
       | None => Reverted Invalid_ciphertext s
       end
  else Reverted Not_registered s.
Proof.
  unfold_exec. destruct (flag (isRegistered (world_of s)) (msg_sender e));
    simpl; [| reflexivity].
  destruct (FHE.fromExternal (this (world_of s)) (msg_sender e) vh att);
    simpl; [| reflexivity].
  repeat pass_check. reflexivity.
Qed.

Lemma verifyVote_cases (s : frame) (e : env)
    (vh : FHE.externalEuint8) (att : bytes) :
  verifyVote e vh att s =
  match FHE.fromExternal (this (world_of s)) (msg_sender e) vh att with
  | Some vote =>
      let isZero := FHE.eq vote (FHE.asEuint8 0) in
      let isOne := FHE.eq vote (FHE.asEuint8 1) in
      Done tt
        {| world_of :=
             set_permissions
               (FHE.allow (FHE.Ebool (FHE.or isZero isOne)) (msg_sender e)
                  (permissions (world_of s)))
               (world_of s);
           transient :=
             map (fun h => (h, this (world_of s)))
               [FHE.Ebool (FHE.or isZero isOne);
                FHE.Ebool isOne; FHE.Euint8 (FHE.asEuint8 1);
                FHE.Ebool isZero; FHE.Euint8 (FHE.asEuint8 0);
                FHE.Euint8 vote]
               ++ transient s |}
  | None => Reverted Invalid_ciphertext s
  end.
Proof.
  unfold_exec.
  destruct (FHE.fromExternal (this (world_of s)) (msg_sender e) vh att);
    simpl; [| reflexivity].
  repeat pass_check. reflexivity.
Qed.

(** *** A call that succeeds commits *)

Lemma perform_commits (s s' : frame) (e : env) (c : call) :
  perform s e c = (s', Succeeded) -> commits (world_of s) e c (world_of s').
Proof.
  destruct c as [| voter x | viewer x | | | vh wh att x | vh att | vh att];
    unfold perform, dispatch.
  - rewrite init_cases.
    destruct (N.eqb (msg_sender e) (admin (world_of s))) eqn:Hs; [| discriminate].
    destruct (initialized (world_of s)) eqn:Hi; [discriminate |].
    intros Heq. inversion Heq. apply N.eqb_eq in Hs. by constructor.
  - rewrite registerVoter_cases.
    destruct (N.eqb (msg_sender e) (admin (world_of s))) eqn:Hs; [| discriminate].
    destruct (N.eqb voter 0) eqn:Hz; [discriminate |].
    destruct (flag (isRegistered (world_of s)) voter) eqn:Hr; [discriminate |].
    intros Heq. inversion Heq.
    apply N.eqb_eq in Hs. apply N.eqb_neq in Hz. by constructor.
  - rewrite allowTallyAccess_cases.
    destruct (N.eqb (msg_sender e) (admin (world_of s))) eqn:Hs; [| discriminate].
    destruct (N.eqb viewer 0) eqn:Hz; [discriminate |].
    destruct (isAllowed (FHE.Euint8 (totalYesVotes (world_of s))) _ s);
      [| discriminate].
    destruct (isAllowed (FHE.Euint8 (totalNoVotes (world_of s))) _ s);
      [| discriminate].
    intros Heq. inversion Heq.
    apply N.eqb_eq in Hs. apply N.eqb_neq in Hz. by constructor.
  - rewrite makeTallyPublic_cases.
    destruct (N.eqb (msg_sender e) (admin (world_of s))) eqn:Hs; [| discriminate].
    destruct (isAllowed (FHE.Euint8 (totalYesVotes (world_of s))) _ s);
      [| discriminate].
    destruct (isAllowed (FHE.Euint8 (totalNoVotes (world_of s))) _ s);
      [| discriminate].
    intros Heq. inversion Heq. apply N.eqb_eq in Hs. by constructor.
  - unfold_exec. intros Heq. inversion Heq. constructor.
  - destruct (castVote_cases s e vh wh att x)
      as [[_ ->] | [(_ & _ & ->) | [(r & s1 & _ & _ & -> & _) | Hc]]];
      try discriminate.
    destruct Hc as (vote & weight & Ht & Hi & Hv & Hx & Hy & ->).
    intros Heq. inversion Heq. by constructor.
  - rewrite grantMyVoteDecryptAccess_cases.
    destruct (flag (isRegistered (world_of s)) (msg_sender e)) eqn:Hr;
      [| discriminate].
    destruct (FHE.fromExternal (this (world_of s)) (msg_sender e) vh att) eqn:Hx;
      [| discriminate].
    intros Heq. inversion Heq. by constructor.
  - rewrite verifyVote_cases.
    destruct (FHE.fromExternal (this (world_of s)) (msg_sender e) vh att) eqn:Hx;
      [| discriminate].
    intros Heq. inversion Heq. by constructor.
Qed.

(** Every call either leaves the state alone or commits. *)
Lemma perform_cases (s : frame) (e : env) (c : call) :
  fst (perform s e c) = s \/
  commits (world_of s) e c (world_of (fst (perform s e c))).
Proof.
  destruct (perform s e c) as [s' [| r]] eqn:Hp; simpl.
  - right. by apply perform_commits.
  - left. eauto using perform_failed.
Qed.

Lemma perform_ind_cases (P : world -> Prop) (s : frame) (e : env) (c : call) :
  P (world_of s) ->
  (forall w' : world, commits (world_of s) e c w' -> P w') ->
  P (world_of (fst (perform s e c))).
Proof.
  intros H0 Hc. destruct (perform_cases s e c) as [-> | Hd]; auto.
Qed.

Lemma transact_commits (w w' : world) (e : env) (c : call) :
  transact w e c = (w', Succeeded) -> commits w e c w'.
Proof.
  unfold transact. destruct (perform (fresh w) e c) as [s' st] eqn:Hp.
  simpl. intros H. inversion H. subst.
  by apply perform_commits in Hp.
Qed.

Lemma transact_cases (w : world) (e : env) (c : call) :
  fst (transact w e c) = w \/ commits w e c (fst (transact w e c)).
Proof.
  destruct (transact w e c) as [w' [| r]] eqn:Htx; simpl.
  - right. by apply transact_commits.
  - left. eauto using transact_failed.
Qed.

Lemma transact_ind_cases (P : world -> Prop) (w : world) (e : env) (c : call) :
  P w -> (forall w' : world, commits w e c w' -> P w') ->
  P (fst (transact w e c)).
Proof.
  intros H0 Hc. destruct (transact_cases w e c) as [-> | Hd]; auto.
Qed.

(** A property of worlds that every committing call keeps is kept by
    every transaction, whatever calls it is made of. *)
Lemma perform_all_ind (P : world -> Prop) (t : Z) (cs : list (address * call)) :
  (forall (w w' : world) (sender : address) (c : call),
      P w ->
      commits w {| msg_sender := sender; block_timestamp := t |} c w' -> P w') ->
  forall s : frame, P (world_of s) -> P (world_of (perform_all s t cs)).
Proof.
  intros Hstep. induction cs as [| [sender c] rest IH]; intros s Hs; simpl.
  - exact Hs.
  - apply IH. apply perform_ind_cases; eauto.
Qed.

Lemma execute_ind (P : world -> Prop) (w : world) (tx : transaction) :
  (forall (w1 w2 : world) (sender : address) (c : call),
      P w1 ->
      commits w1 {| msg_sender := sender; block_timestamp := timestamp tx |} c w2 ->
      P w2) ->
  P w -> P (execute w tx).
Proof.
  intros Hstep Hw. unfold execute. by apply perform_all_ind.
Qed.

Lemma run_ind (P : world -> Prop) :
  (forall (w1 w2 : world) (e : env) (c : call),
      P w1 -> commits w1 e c w2 -> P w2) ->
  forall (txs : list transaction) (w : world), P w -> P (run w txs).
Proof.
  intros Hstep. induction txs as [| tx rest IH]; intros w Hw; simpl.
  - exact Hw.
  - apply IH. apply execute_ind; eauto.
Qed.

End Proofs.

Section Frames.
Context {F : FHE.Capability}.

Lemma extends_refl (w : world) : extends w w.
Proof. unfold extends. auto 10. Qed.

Lemma extends_trans (w1 w2 w3 : world) :
  extends w1 w2 -> extends w2 w3 -> extends w1 w3.
Proof.
  intros (H1 & H2 & H3 & H4 & H5 & H6) (G1 & G2 & G3 & G4 & G5 & G6).
  unfold extends. rewrite G1, G2, G3. auto 10.
Qed.

Lemma commits_extends (w w' : world) (e : env) (c : call) :
  commits w e c w' -> extends w w'.
Proof.
  destruct 1; unfold extends; simpl; auto 10 using flag_insert_mono.
  destruct (auto_registered_frame e x w) as (-> & -> & -> & -> & -> & _).
  repeat split; auto using flag_insert_mono, auto_registered_mono.
Qed.

Lemma transact_frame (w : world) (e : env) (c : call) :
  extends w (fst (transact w e c)).
Proof.
  apply transact_ind_cases; eauto using extends_refl, commits_extends.
Qed.

Lemma execute_frame (w : world) (tx : transaction) :
  extends w (execute w tx).
Proof.
  apply (execute_ind (extends w)); eauto using extends_refl.
  eauto using extends_trans, commits_extends.
Qed.

Lemma run_frame (txs : list transaction) (w : world) :
  extends w (run w txs).
Proof.
  apply (run_ind (extends w)); eauto using extends_refl.
  eauto using extends_trans, commits_extends.
Qed.

(** *** The registry invariant *)

Lemma auto_registered_invariant (e : env) (x : bytes) (w : world) :
  voted_implies_registered w -> voted_implies_registered (auto_registered e x w).
Proof.
  intros Hinv v Hv.
  destruct (auto_registered_frame e x w) as (_ & _ & _ & _ & Hh & _).
  rewrite Hh in Hv. auto using auto_registered_mono.
Qed.

Lemma vote_counted_invariant (e : env) (x : bytes) (vote weight : FHE.euint8)
    (w : world) :
  voted_implies_registered w ->
  voted_implies_registered (vote_counted e x vote weight w).
Proof.
  intros Hinv v. unfold vote_counted. simpl.
  rewrite flag_insert. case_decide as Hd.
  - intros _. subst v. apply auto_registered_sender.
  - apply (auto_registered_invariant e x w Hinv v).
Qed.

(** [castVote] keeps the invariant where it returns and wherever it
    reverts: the registration is written before the vote is. *)
Lemma castVote_invariant (s : frame) (e : env) vh wh att x :
  voted_implies_registered (world_of s) ->
  match castVote e vh wh att x s with
  | Done _ s' => voted_implies_registered (world_of s')
  | Reverted _ s' => voted_implies_registered (world_of s')
  end.
Proof.
  intros Hinv.
  destruct (castVote_cases s e vh wh att x)
    as [[_ ->] | [(_ & _ & ->) | [(r & s1 & _ & _ & -> & _ & Hs1) | H]]]; auto.
  - destruct Hs1 as [-> | [yes ->]]; by apply auto_registered_invariant.
  - destruct H as (vote & weight & _ & _ & _ & _ & _ & ->).
    by apply vote_counted_invariant.
Qed.

Lemma commits_invariant (w w' : world) (e : env) (c : call) :
  commits w e c w' ->
  voted_implies_registered w -> voted_implies_registered w'.
Proof.
  destruct 1; auto using vote_counted_invariant.
  intros Hinv v Hv. simpl in *. auto using flag_insert_mono.
Qed.

Lemma transact_invariant (w : world) (e : env) (c : call) :
  voted_implies_registered w ->
  voted_implies_registered (fst (transact w e c)).
Proof.
  intros Hinv. apply transact_ind_cases; eauto using commits_invariant.
Qed.

Lemma execute_invariant (w : world) (tx : transaction) :
  voted_implies_registered w ->
  voted_implies_registered (execute w tx).
Proof.
  intros Hinv. apply execute_ind; eauto using commits_invariant.
Qed.

Lemma deploy_inl (self : address) (e : env) (d : Z) (w : world) :
  deploy self e d = inl w ->
  0 < d /\ block_timestamp e + d < uint256_limit /\
  w = set_votingEndTime (block_timestamp e + d)
        (set_admin (msg_sender e) (blank self)).
Proof.
  unfold deploy, constructor. unfold_exec.
  destruct (0 <? d) eqn:Hd; simpl; [| discriminate].
  destruct (block_timestamp e + d <? uint256_limit) eqn:Ho; simpl; [| discriminate].
  intros H. inversion H. repeat split; lia.
Qed.

Lemma deploy_ok (self : address) (e : env) (d : Z) :
  0 < d -> block_timestamp e + d < uint256_limit ->
  deploy self e d =
  inl (set_votingEndTime (block_timestamp e + d)
         (set_admin (msg_sender e) (blank self))).
Proof.
  intros Hd Ho. unfold deploy, constructor. unfold_exec.
  assert ((0 <? d) = true) as -> by lia. simpl.
  assert ((block_timestamp e + d <? uint256_limit) = true) as -> by lia.
  reflexivity.
Qed.

Lemma perform_all_app (s : frame) (t : Z) (cs1 cs2 : list (address * call)) :
  perform_all s t (cs1 ++ cs2) = perform_all (perform_all s t cs1) t cs2.
Proof.
  revert s. induction cs1 as [| [sender c] rest IH]; intros s; simpl; auto.
Qed.

(** A property that holds of every freshly deployed contract and that
    every committing call keeps holds in every reachable world. *)
Lemma reachable_ind_commits (P : world -> Prop) :
  (forall (self : address) (e : env) (d : Z),
      0 < d -> block_timestamp e + d < uint256_limit ->
      P (set_votingEndTime (block_timestamp e + d)
           (set_admin (msg_sender e) (blank self)))) ->
  (forall (w w' : world) (e : env) (c : call),
      reachable w -> P w -> commits w e c w' -> P w') ->
  forall w : world, reachable w -> P w.
Proof.
  intros Hbase Hstep w Hw.
  induction Hw as [self e d w Hd | w [t cs] Hw IH].
  - apply deploy_inl in Hd as (Hd & Ho & ->). by apply Hbase.
  - induction cs as [| [sender c] cs IHcs] using rev_ind; [exact IH |].
    unfold execute in *. simpl in *. rewrite perform_all_app. simpl.
    apply (perform_ind_cases (fun w1 => P w1)); [exact IHcs |].
    intros w'. apply Hstep; [| exact IHcs].
    apply (reachable_execute w {| timestamp := t; calls := cs |} Hw).
Qed.

Lemma reachable_invariant (w : world) :
  reachable w -> voted_implies_registered w.
Proof.
  apply reachable_ind_commits.
  - intros self e d _ _ v. simpl. unfold flag. rewrite lookup_empty. discriminate.
  - eauto using commits_invariant.
Qed.

Lemma reachable_run (w : world) (txs : list transaction) :
  reachable w -> reachable (run w txs).
Proof.
  revert w. induction txs as [| tx rest IH]; intros w Hw; simpl; auto.
  apply IH. by apply reachable_execute.
Qed.

(** A transaction of one call. *)
Lemma execute_single (w : world) (e : env) (c : call) :
  execute w {| timestamp := block_timestamp e; calls := [(msg_sender e, c)] |}
  = fst (transact w e c).
Proof. unfold execute, transact. simpl. by destruct e. Qed.

Lemma reachable_transact (w : world) (e : env) (c : call) :
  reachable w -> reachable (fst (transact w e c)).
Proof.
  intros Hw. rewrite <- execute_single. by apply reachable_execute.
Qed.

(** The tallies are written only by [init] and by a counted vote, and both
    leave [initialized] set. *)
Lemma commits_totals (w w' : world) (e : env) (c : call) :
  commits w e c w' ->
  initialized w' = false ->
  initialized w = false /\
  totalYesVotes w' = totalYesVotes w /\
  totalNoVotes w' = totalNoVotes w.
Proof.
  destruct 1; simpl; auto; try discriminate.
  destruct (auto_registered_frame e x w) as (_ & _ & _ & -> & _).
  congruence.
Qed.

Lemma reachable_uninitialized (w : world) :
  reachable w -> initialized w = false ->
  totalYesVotes w = FHE.uninitialized /\ totalNoVotes w = FHE.uninitialized.
Proof.
  revert w. apply (reachable_ind_commits
    (fun w => initialized w = false ->
              totalYesVotes w = FHE.uninitialized /\
              totalNoVotes w = FHE.uninitialized)).
  - auto.
  - intros w w' e c _ IH Hc Hi.
    apply (commits_totals _ _ _ _ Hc) in Hi as (Hi & -> & ->). auto.
Qed.

End Frames.

(** *** The capability of the examples is homomorphic *)

Lemma mock_homomorphic : Homomorphic Mock.capability.
Proof. split; reflexivity. Qed.

Lemma transact_status {F : FHE.Capability} (w : world) (e : env) (c : call)
    (s : status) :
  snd (transact w e c) = s -> transact w e c = (fst (transact w e c), s).
Proof. destruct (transact w e c). simpl. congruence. Qed.

Lemma perform_status {F : FHE.Capability} (s : frame) (e : env) (c : call)
    (st : status) :
  snd (perform s e c) = st -> perform s e c = (fst (perform s e c), st).
Proof. destruct (perform s e c). simpl. congruence. Qed.

Lemma mock_after_reachable (t0 d : Z) (txs : list transaction) :
  0 < d -> t0 + d < uint256_limit -> reachable (Mock.after t0 d txs).
Proof.
  intros Hd Ho. unfold Mock.after.
  pose proof (deploy_ok (F := Mock.capability) Mock.contract
                (Mock.at_time Mock.deployer t0) d Hd Ho) as H.
  simpl in H. rewrite H.
  apply reachable_run.
  apply (reachable_deploy Mock.contract (Mock.at_time Mock.deployer t0) d).
  exact H.
Qed.

Lemma mock_deployed_reachable : reachable Mock.deployed.
Proof. by apply mock_after_reachable. Qed.

Lemma mock_opened_reachable : reachable Mock.opened.
Proof. apply reachable_execute, mock_deployed_reachable. Qed.

Lemma mock_voted_reachable : reachable Mock.voted.
Proof. apply reachable_transact, mock_opened_reachable. Qed.

Lemma mock_initialized_alone_reachable : reachable Mock.initialized_alone.
Proof. apply reachable_transact, mock_deployed_reachable. Qed.

Section Single.
Context {F : FHE.Capability}.

(** *** Transactions of one call *)

Lemma transact_closed_vote (w : world) (e : env) vh wh att x :
  votingEndTime w <= block_timestamp e ->
  transact w e (CastVote vh wh att x) = (w, Failed Voting_closed).
Proof.
  intros Ht. unfold transact, perform, dispatch.
  by rewrite (castVote_closed (fresh w)).
Qed.

Lemma transact_uninitialized_vote (w : world) (e : env) vh wh att x :
  block_timestamp e < votingEndTime w ->
  initialized w = false ->
  transact w e (CastVote vh wh att x) = (w, Failed Contract_not_initialized).
Proof.
  intros Ht Hi. unfold transact, perform, dispatch.
  by rewrite (castVote_not_initialized (fresh w)).
Qed.

Lemma transact_repeated_vote (w : world) (e : env) vh wh att x :
  block_timestamp e < votingEndTime w ->
  initialized w = true ->
  flag (hasVoted w) (msg_sender e) = true ->
  transact w e (CastVote vh wh att x) = (w, Failed Already_voted).
Proof.
  intros Ht Hi Hv. unfold transact, perform, dispatch.
  by rewrite (castVote_already_voted (fresh w)).
Qed.

Lemma transact_init (w : world) (e : env) :
  transact w e Init =
  if N.eqb (msg_sender e) (admin w)
  then if initialized w
       then (w, Failed Already_initialized)
       else (set_initialized true
               (set_totalNoVotes (FHE.asEuint8 0)
                  (set_totalYesVotes (FHE.asEuint8 0) w)), Succeeded)
  else (w, Failed Only_admin).
Proof.
  unfold transact, perform, dispatch. rewrite init_cases. simpl.
  destruct (N.eqb (msg_sender e) (admin w)); [destruct (initialized w) |];
    reflexivity.
Qed.

Lemma transact_registerVoter (w : world) (e : env) (voter : address) (x : bytes) :
  transact w e (RegisterVoter voter x) =
  if N.eqb (msg_sender e) (admin w)
  then if N.eqb voter 0
       then (w, Failed Zero_address)
       else if flag (isRegistered w) voter
            then (w, Failed Already_registered)
            else (set_log (log w ++ [VoterRegistered voter x])
                    (set_isRegistered (<[voter := true]> (isRegistered w)) w),
                  Succeeded)
  else (w, Failed Only_admin).
Proof.
  unfold transact, perform, dispatch. rewrite registerVoter_cases. simpl.
  destruct (N.eqb (msg_sender e) (admin w)); [| reflexivity].
  destruct (N.eqb voter 0); [reflexivity |].
  destruct (flag (isRegistered w) voter); reflexivity.
Qed.

(** In a reachable world, who has not registered has not voted. *)
Lemma unregistered_has_not_voted (w : world) (v : address) :
  reachable w -> flag (isRegistered w) v = false -> flag (hasVoted w) v = false.
Proof.
  intros Hreach Hr.
  destruct (flag (hasVoted w) v) eqn:Hv; [| reflexivity].
  apply (reachable_invariant w Hreach) in Hv. congruence.
Qed.

End Single.

(** * The claims *)

Section Claims.
Context {F : FHE.Capability}.

(** C1 (as amended).  [castVote] checks the deadline first, through its
    [votingOpen] modifier, and [initialized] second.  A call made at or after
    [votingEndTime] reverts with "Voting closed" whatever [initialized] is; a
    call made strictly before it while [initialized] is false reverts with
    "Contract not initialized".  In both cases the revert is raised on the
    untouched state, whatever rights the running transaction holds: no
    later check or write has run. *)
Theorem castVote_deadline_then_initialized
    (w : world) (rights : list (FHE.handle * address)) (e : env)
    (vh wh : FHE.externalEuint8) (att x : bytes) :
  (votingEndTime w <= block_timestamp e ->
   castVote e vh wh att x {| world_of := w; transient := rights |}
   = Reverted Voting_closed {| world_of := w; transient := rights |} /\
   transact w e (CastVote vh wh att x) = (w, Failed Voting_closed)) /\
  (block_timestamp e < votingEndTime w -> initialized w = false ->
   castVote e vh wh att x {| world_of := w; transient := rights |}
   = Reverted Contract_not_initialized {| world_of := w; transient := rights |} /\
   transact w e (CastVote vh wh att x) = (w, Failed Contract_not_initialized)).
Proof.
  split.
  - intros Ht. split; [by apply castVote_closed |].
    by apply transact_closed_vote.
  - intros Ht Hi. split; [by apply castVote_not_initialized |].
    by apply transact_uninitialized_vote.
Qed.

(** C2.  A call that fails leaves the world (storage, event log and
    permissions) exactly as it found it, and the rights of the running
    transaction too.  In particular, when [castVote] auto-registers its
    caller and the capability then rejects one of the two ciphertexts, the
    function had set [isRegistered[caller]] and emitted [VoterRegistered] by
    the time it reverted, and neither survives the call. *)
Theorem failed_call_has_no_effect :
  (forall (w w' : world) (e : env) (c : call) (r : revert_reason),
      transact w e c = (w', Failed r) -> w' = w) /\
  (forall (s s' : frame) (e : env) (c : call) (r : revert_reason),
      perform s e c = (s', Failed r) -> s' = s) /\
  (forall (w : world) (rights : list (FHE.handle * address)) (e : env)
          (vh wh : FHE.externalEuint8) (att x : bytes),
      reachable w ->
      block_timestamp e < votingEndTime w ->
      initialized w = true ->
      flag (isRegistered w) (msg_sender e) = false ->
      FHE.fromExternal (this w) (msg_sender e) vh att = None \/
      FHE.fromExternal (this w) (msg_sender e) wh att = None ->
      (exists dirty : frame,
          castVote e vh wh att x {| world_of := w; transient := rights |}
          = Reverted Invalid_ciphertext dirty /\
          flag (isRegistered (world_of dirty)) (msg_sender e) = true /\
          log (world_of dirty) = log w ++ [VoterRegistered (msg_sender e) x]) /\
      perform {| world_of := w; transient := rights |} e (CastVote vh wh att x)
      = ({| world_of := w; transient := rights |}, Failed Invalid_ciphertext) /\
      transact w e (CastVote vh wh att x) = (w, Failed Invalid_ciphertext) /\
      flag (isRegistered (fst (transact w e (CastVote vh wh att x))))
        (msg_sender e) = false).
Proof.
  split; [exact transact_failed |]. split; [exact perform_failed |].
  assert (forall (s : frame) (e : env) vh wh att x,
             block_timestamp e < votingEndTime (world_of s) ->
             initialized (world_of s) = true ->
             flag (hasVoted (world_of s)) (msg_sender e) = false ->
             FHE.fromExternal (this (world_of s)) (msg_sender e) vh att = None \/
             FHE.fromExternal (this (world_of s)) (msg_sender e) wh att = None ->
             exists dirty : frame,
               castVote e vh wh att x s = Reverted Invalid_ciphertext dirty /\
               world_of dirty = auto_registered e x (world_of s)) as Hrun.
  { intros s e vh wh att x Ht Hi Hv Hbad.
    destruct (FHE.fromExternal (this (world_of s)) (msg_sender e) vh att)
      as [vote |] eqn:Hx.
    - destruct Hbad as [Hbad | Hbad]; [discriminate |].
      eexists. split; [by eapply castVote_invalid_weight | reflexivity].
    - eexists. split; [by eapply castVote_invalid_vote | reflexivity]. }
  intros w rights e vh wh att x Hreach Ht Hi Hr Hbad.
  pose proof (unregistered_has_not_voted _ _ Hreach Hr) as Hv.
  destruct (Hrun {| world_of := w; transient := rights |} e vh wh att x
              Ht Hi Hv Hbad) as (dirty & Hs & Hd).
  destruct (Hrun (fresh w) e vh wh att x Ht Hi Hv Hbad) as (dirty' & Hs' & _).
  assert (transact w e (CastVote vh wh att x) = (w, Failed Invalid_ciphertext))
    as Htx.
  { unfold transact, perform, dispatch. by rewrite Hs'. }
  repeat split.
  - exists dirty. split; [exact Hs |]. rewrite Hd. simpl.
    split; [apply auto_registered_sender |].
    unfold auto_registered. by rewrite Hr.
  - unfold perform, dispatch. by rewrite Hs.
  - exact Htx.
  - by rewrite Htx.
Qed.

(** C3 (as amended).  Once a [castVote] of voter [v] has succeeded, which
    takes [hasVoted[v]] from false to true, the flag stays true through every
    later sequence of transactions, and every later [castVote] of [v] fails
    and changes nothing, the tallies included: with "Already voted" when it
    is made strictly before [votingEndTime], and with "Voting closed" when
    it is made at or after it. *)
Theorem one_vote_per_voter
    (w w1 : world) (e : env) (vh wh : FHE.externalEuint8) (att x : bytes) :
  transact w e (CastVote vh wh att x) = (w1, Succeeded) ->
  flag (hasVoted w) (msg_sender e) = false /\
  forall (txs : list transaction) (e2 : env)
         (vh2 wh2 : FHE.externalEuint8) (att2 x2 : bytes),
    msg_sender e2 = msg_sender e ->
    flag (hasVoted (run w1 txs)) (msg_sender e) = true /\
    transact (run w1 txs) e2 (CastVote vh2 wh2 att2 x2) =
    (run w1 txs,
     Failed (if block_timestamp e2 <? votingEndTime (run w1 txs)
             then Already_voted else Voting_closed)).
Proof.
  intros Htx. apply transact_commits in Htx.
  inversion Htx as [| | | | | ? ? ? ? vote weight Ht Hi Hv Hx Hy | |]; subst.
  split; [exact Hv |].
  intros txs e2 vh2 wh2 att2 x2 Hs.
  destruct (run_frame txs (vote_counted e x vote weight w))
    as (_ & _ & _ & Hi2 & Hv2 & _).
  assert (flag (hasVoted (run (vote_counted e x vote weight w) txs))
            (msg_sender e) = true) as Hvoted.
  { apply Hv2. simpl. apply flag_insert_eq. }
  assert (initialized (run (vote_counted e x vote weight w) txs) = true) as Hinit.
  { apply Hi2. simpl.
    destruct (auto_registered_frame e x w) as (_ & _ & _ & -> & _). exact Hi. }
  split; [exact Hvoted |].
  set (w2 := run (vote_counted e x vote weight w) txs) in *.
  destruct (block_timestamp e2 <? votingEndTime w2) eqn:Ht2.
  - apply transact_repeated_vote; [lia | exact Hinit | by rewrite Hs].
  - apply transact_closed_vote. lia.
Qed.

(** C5.  A [castVote] made at a time greater than or equal to
    [votingEndTime] fails with "Voting closed" ([VotingClosed]), for every
    caller, whether or not the caller is registered or has voted and whether
    or not [init] has been called; the world is unchanged. *)
Theorem castVote_at_or_after_deadline
    (w : world) (e : env) (vh wh : FHE.externalEuint8) (att x : bytes) :
  votingEndTime w <= block_timestamp e ->
  transact w e (CastVote vh wh att x) = (w, Failed Voting_closed) /\
  taxonomy Voting_closed = Some VotingClosed.
Proof.
  intros Ht. split; [| reflexivity]. by apply transact_closed_vote.
Qed.

(** C6.  [init] fails with "Only admin" ([Unauthorized]) for every caller
    other than the admin.  A successful call sets both tallies to the
    encryption of zero and [initialized] to true.  After a successful call,
    and whatever transactions follow it, every further [init] fails and
    leaves the world, hence both tallies, unchanged: with "Already
    initialized" when the admin calls, with "Only admin" otherwise. *)
Theorem init_is_one_shot :
  (forall (w : world) (e : env),
      msg_sender e <> admin w -> transact w e Init = (w, Failed Only_admin)) /\
  (forall (w : world) (e : env),
      msg_sender e = admin w -> initialized w = false ->
      exists w1 : world,
        transact w e Init = (w1, Succeeded) /\
        totalYesVotes w1 = FHE.asEuint8 0 /\
        totalNoVotes w1 = FHE.asEuint8 0 /\
        initialized w1 = true) /\
  (forall (w w1 : world) (e : env),
      transact w e Init = (w1, Succeeded) ->
      forall (txs : list transaction) (e2 : env),
        transact (run w1 txs) e2 Init =
        (run w1 txs,
         Failed (if N.eqb (msg_sender e2) (admin (run w1 txs))
                 then Already_initialized else Only_admin))).
Proof.
  split; [| split].
  - intros w e Hs. rewrite transact_init.
    apply N.eqb_neq in Hs. by rewrite Hs.
  - intros w e Hs Hi. rewrite transact_init.
    rewrite Hs, N.eqb_refl, Hi. eexists. split; [reflexivity |]. auto.
  - intros w w1 e. rewrite transact_init.
    destruct (N.eqb (msg_sender e) (admin w)); [| discriminate].
    destruct (initialized w); [discriminate |].
    intros H. inversion H as [Hw1]. clear H.
    intros txs e2.
    match goal with |- context [run ?w0 txs] => set (w2 := run w0 txs) end.
    assert (initialized w2 = true) as Hi2.
    { subst w2. by apply run_frame. }
    rewrite transact_init, Hi2.
    destruct (N.eqb (msg_sender e2) (admin w2)); reflexivity.
Qed.

(** C7.  [hasVoted[v]] implies [isRegistered[v]] for every [v] in every
    reachable world.  Every call and every transaction preserves the
    implication; [castVote] preserves it also at each point where it can
    revert, because it writes [isRegistered] before [hasVoted]; and the
    calls other than [registerVoter] and [castVote] write neither mapping. *)
Theorem voted_implies_registered_invariant :
  (forall w : world, reachable w -> voted_implies_registered w) /\
  (forall (w : world) (e : env) (c : call),
      voted_implies_registered w ->
      voted_implies_registered (fst (transact w e c))) /\
  (forall (w : world) (tx : transaction),
      voted_implies_registered w ->
      voted_implies_registered (execute w tx)) /\
  (forall (s : frame) (e : env) (vh wh : FHE.externalEuint8) (att x : bytes),
      voted_implies_registered (world_of s) ->
      match castVote e vh wh att x s with
      | Done _ s' => voted_implies_registered (world_of s')
      | Reverted _ s' => voted_implies_registered (world_of s')
      end) /\
  (forall (s : frame) (e : env) (c : call),
      match c with
      | RegisterVoter _ _ | CastVote _ _ _ _ => True
      | _ =>
          isRegistered (world_of (fst (perform s e c)))
          = isRegistered (world_of s) /\
          hasVoted (world_of (fst (perform s e c))) = hasVoted (world_of s)
      end).
Proof.
  split; [exact reachable_invariant |].
  split; [exact transact_invariant |].
  split; [exact execute_invariant |].
  split; [exact castVote_invariant |].
  intros s e c.
  destruct c; try exact I;
    (apply (perform_ind_cases
              (fun w' => isRegistered w' = isRegistered (world_of s) /\
                         hasVoted w' = hasVoted (world_of s)));
     [auto | intros w' Hc; by inversion Hc]).
Qed.


(** C9.  [registerVoter] consults neither the clock nor [initialized]: at
    any time and in any world, a call by the admin for a nonzero address that
    is not yet registered succeeds, sets [isRegistered[voter]] and emits
    [VoterRegistered]. *)
Theorem registerVoter_is_ungated
    (w : world) (e : env) (voter : address) (x : bytes) :
  msg_sender e = admin w ->
  voter <> 0%N ->
  flag (isRegistered w) voter = false ->
  exists w' : world,
    transact w e (RegisterVoter voter x) = (w', Succeeded) /\
    flag (isRegistered w') voter = true /\
    log w' = log w ++ [VoterRegistered voter x].
Proof.
  intros Hs Hz Hr. rewrite transact_registerVoter.
  apply N.eqb_neq in Hz. rewrite Hs, N.eqb_refl, Hz, Hr.
  eexists. split; [reflexivity |]. simpl. split; [apply flag_insert_eq | auto].
Qed.

(** C10 (as amended).  [allowTallyAccess] and [makeTallyPublic] do not
    look at [initialized].  Called by the admin (with a nonzero viewer),
    each succeeds exactly when the contract holds a right on both of its
    tally handles, and then grants the viewer access to both and emits
    [TallyAccessGranted], or marks both publicly decryptable; otherwise it
    fails with the library's "SenderNotAllowed" and changes nothing.  In a
    reachable world where [init] has not run both tallies are still the
    uninitialised handle, and on a contract that has just been deployed
    nobody holds a right on it: there both calls fail. *)
Theorem tally_access_needs_a_right
    (w : world) (rights : list (FHE.handle * address)) (e : env) :
  msg_sender e = admin w ->
  (forall (viewer : address) (x : bytes),
      viewer <> 0%N ->
      perform {| world_of := w; transient := rights |} e
        (AllowTallyAccess viewer x) =
      if isAllowed (FHE.Euint8 (totalYesVotes w)) (this w)
           {| world_of := w; transient := rights |}
         && isAllowed (FHE.Euint8 (totalNoVotes w)) (this w)
              {| world_of := w; transient := rights |}
      then
        ({| world_of :=
              set_log (log w ++ [TallyAccessGranted viewer x])
                (set_permissions
                   (FHE.allow (FHE.Euint8 (totalNoVotes w)) viewer
                      (FHE.allow (FHE.Euint8 (totalYesVotes w)) viewer
                         (permissions w)))
                   w);
            transient := rights |}, Succeeded)
      else ({| world_of := w; transient := rights |},
            Failed Sender_not_allowed)) /\
  perform {| world_of := w; transient := rights |} e MakeTallyPublic =
  (if isAllowed (FHE.Euint8 (totalYesVotes w)) (this w)
        {| world_of := w; transient := rights |}
      && isAllowed (FHE.Euint8 (totalNoVotes w)) (this w)
           {| world_of := w; transient := rights |}
   then
     ({| world_of :=
           set_permissions
             (FHE.makePubliclyDecryptable (FHE.Euint8 (totalNoVotes w))
                (FHE.makePubliclyDecryptable (FHE.Euint8 (totalYesVotes w))
                   (permissions w)))
             w;
         transient := rights |}, Succeeded)
   else ({| world_of := w; transient := rights |},
         Failed Sender_not_allowed)) /\
  (reachable w -> initialized w = false ->
   totalYesVotes w = FHE.uninitialized /\
   totalNoVotes w = FHE.uninitialized) /\
  ((exists (self : address) (e0 : env) (d : Z), deploy self e0 d = inl w) ->
   (forall (viewer : address) (x : bytes),
       viewer <> 0%N ->
       transact w e (AllowTallyAccess viewer x)
       = (w, Failed Sender_not_allowed)) /\
   transact w e MakeTallyPublic = (w, Failed Sender_not_allowed)).
Proof.
  intros Hs.
  assert (forall (s0 : frame) (viewer : address) (x : bytes),
             msg_sender e = admin (world_of s0) -> viewer <> 0%N ->
             perform s0 e (AllowTallyAccess viewer x) =
             if isAllowed (FHE.Euint8 (totalYesVotes (world_of s0)))
                  (this (world_of s0)) s0
                && isAllowed (FHE.Euint8 (totalNoVotes (world_of s0)))
                     (this (world_of s0)) s0
             then
               ({| world_of :=
                     set_log (log (world_of s0) ++ [TallyAccessGranted viewer x])
                       (set_permissions
                          (FHE.allow (FHE.Euint8 (totalNoVotes (world_of s0)))
                             viewer
                             (FHE.allow
                                (FHE.Euint8 (totalYesVotes (world_of s0)))
                                viewer (permissions (world_of s0))))
                          (world_of s0));
                   transient := transient s0 |}, Succeeded)
             else (s0, Failed Sender_not_allowed)) as Hallow.
  { intros s0 viewer x Hs0 Hz. unfold perform, dispatch.
    rewrite allowTallyAccess_cases. apply N.eqb_neq in Hz.
    rewrite Hs0, N.eqb_refl, Hz.
    destruct (isAllowed (FHE.Euint8 (totalYesVotes (world_of s0))) _ s0);
      [| reflexivity].
    destruct (isAllowed (FHE.Euint8 (totalNoVotes (world_of s0))) _ s0);
      reflexivity. }
  assert (forall s0 : frame,
             msg_sender e = admin (world_of s0) ->
             perform s0 e MakeTallyPublic =
             if isAllowed (FHE.Euint8 (totalYesVotes (world_of s0)))
                  (this (world_of s0)) s0
                && isAllowed (FHE.Euint8 (totalNoVotes (world_of s0)))
                     (this (world_of s0)) s0
             then
               ({| world_of :=
                     set_permissions
                       (FHE.makePubliclyDecryptable
                          (FHE.Euint8 (totalNoVotes (world_of s0)))
                          (FHE.makePubliclyDecryptable
                             (FHE.Euint8 (totalYesVotes (world_of s0)))
                             (permissions (world_of s0))))
                       (world_of s0);
                   transient := transient s0 |}, Succeeded)
             else (s0, Failed Sender_not_allowed)) as Hpublic.
  { intros s0 Hs0. unfold perform, dispatch.
    rewrite makeTallyPublic_cases. rewrite Hs0, N.eqb_refl.
    destruct (isAllowed (FHE.Euint8 (totalYesVotes (world_of s0))) _ s0);
      [| reflexivity].
    destruct (isAllowed (FHE.Euint8 (totalNoVotes (world_of s0))) _ s0);
      reflexivity. }
  split.
  { intros viewer x Hz.
    exact (Hallow {| world_of := w; transient := rights |} viewer x Hs Hz). }
  split; [exact (Hpublic {| world_of := w; transient := rights |} Hs) |].
  split; [apply reachable_uninitialized |].
  intros (self & e0 & d & Hd).
  apply deploy_inl in Hd as (_ & _ & Hw).
  assert (isAllowed (FHE.Euint8 (totalYesVotes w)) (this w) (fresh w) = false)
    as Hnone.
  { rewrite Hw. reflexivity. }
  split.
  - intros viewer x Hz. unfold transact.
    rewrite (Hallow (fresh w) viewer x Hs Hz). simpl.
    by rewrite Hnone.
  - unfold transact. rewrite (Hpublic (fresh w) Hs). simpl.
    by rewrite Hnone.
Qed.

End Claims.

Section Arithmetic.
Context {F : FHE.Capability} {H : Homomorphic F}.

Lemma vote_counted_totals (e : env) (x : bytes) (vote weight : FHE.euint8)
    (w : world) :
  FHE.decrypt (totalYesVotes (vote_counted e x vote weight w)) =
  (FHE.decrypt (totalYesVotes w) + FHE.decrypt vote * FHE.decrypt weight)
    mod uint8_limit /\
  FHE.decrypt (totalNoVotes (vote_counted e x vote weight w)) =
  (FHE.decrypt (totalNoVotes w) + (1 - FHE.decrypt vote) * FHE.decrypt weight)
    mod uint8_limit.
Proof.
  unfold vote_counted. simpl.
  destruct (auto_registered_frame e x w) as (_ & _ & _ & _ & _ & -> & -> & _).
  rewrite !decrypt_add, !decrypt_mul, decrypt_sub, decrypt_asEuint8.
  rewrite Zmult_mod_idemp_l, !Zplus_mod_idemp_r.
  replace (1 mod uint8_limit) with 1 by reflexivity.
  split; reflexivity.
Qed.

Lemma perform_counted_totals (s s' : frame) (e : env)
    (vh wh : FHE.externalEuint8) (att x : bytes) :
  perform s e (CastVote vh wh att x) = (s', Succeeded) ->
  exists vote weight : FHE.euint8,
    FHE.fromExternal (this (world_of s)) (msg_sender e) vh att = Some vote /\
    FHE.fromExternal (this (world_of s)) (msg_sender e) wh att = Some weight /\
    FHE.decrypt (totalYesVotes (world_of s')) =
    (FHE.decrypt (totalYesVotes (world_of s))
     + FHE.decrypt vote * FHE.decrypt weight) mod uint8_limit /\
    FHE.decrypt (totalNoVotes (world_of s')) =
    (FHE.decrypt (totalNoVotes (world_of s))
     + (1 - FHE.decrypt vote) * FHE.decrypt weight) mod uint8_limit.
Proof.
  intros Hp. apply perform_commits in Hp.
  inversion Hp as [| | | | | ? ? ? ? vote weight Ht Hi Hv Hx Hy | |]; subst.
  exists vote, weight.
  destruct (vote_counted_totals e x vote weight (world_of s)) as [Hyes Hno].
  auto.
Qed.

(** C4.  A successful [castVote] whose two ciphertexts decode to a vote of
    plaintext [v] and a weight of plaintext [wt] leaves tallies whose
    plaintexts are the old ones plus [v * wt] and plus [(1 - v) * wt], modulo
    [2^8].  Scenario A does not go through as three transactions: after
    [constructor(86400)] and [init()], the contract holds no right on the
    encryption of zero that [init] stored, and the vote of 1 with weight 5 by
    [X] reverts in [FHE.add], leaving [X] unregistered and both tallies where
    [init] put them.  It goes through when [init] and the vote share a
    transaction: then [X] is registered and has voted, the yes tally is 5
    and the no tally 0. *)
Theorem castVote_arithmetic_and_scenario_A :
  (forall (w w' : world) (e : env) (vh wh : FHE.externalEuint8) (att x : bytes),
      transact w e (CastVote vh wh att x) = (w', Succeeded) ->
      exists vote weight : FHE.euint8,
        FHE.fromExternal (this w) (msg_sender e) vh att = Some vote /\
        FHE.fromExternal (this w) (msg_sender e) wh att = Some weight /\
        FHE.decrypt (totalYesVotes w') =
        (FHE.decrypt (totalYesVotes w) + FHE.decrypt vote * FHE.decrypt weight)
          mod uint8_limit /\
        FHE.decrypt (totalNoVotes w') =
        (FHE.decrypt (totalNoVotes w)
         + (1 - FHE.decrypt vote) * FHE.decrypt weight) mod uint8_limit) /\
  (forall (s s' : frame) (e : env) (vh wh : FHE.externalEuint8) (att x : bytes),
      perform s e (CastVote vh wh att x) = (s', Succeeded) ->
      exists vote weight : FHE.euint8,
        FHE.fromExternal (this (world_of s)) (msg_sender e) vh att = Some vote /\
        FHE.fromExternal (this (world_of s)) (msg_sender e) wh att = Some weight /\
        FHE.decrypt (totalYesVotes (world_of s')) =
        (FHE.decrypt (totalYesVotes (world_of s))
         + FHE.decrypt vote * FHE.decrypt weight) mod uint8_limit /\
        FHE.decrypt (totalNoVotes (world_of s')) =
        (FHE.decrypt (totalNoVotes (world_of s))
         + (1 - FHE.decrypt vote) * FHE.decrypt weight) mod uint8_limit) /\
  (forall (self creator X : address) (t0 t1 t2 : Z)
          (vh wh : FHE.externalEuint8) (att x : bytes) (vote weight : FHE.euint8),
      t0 + 86400 < uint256_limit ->
      t2 < t0 + 86400 ->
      FHE.fromExternal self X vh att = Some vote ->
      FHE.fromExternal self X wh att = Some weight ->
      FHE.Euint8 (FHE.asEuint8 0) ∉ vote_handles vote weight ->
      exists w0 w1 : world,
        deploy self {| msg_sender := creator; block_timestamp := t0 |} 86400
        = inl w0 /\
        transact w0 {| msg_sender := creator; block_timestamp := t1 |} Init
        = (w1, Succeeded) /\
        transact w1 {| msg_sender := X; block_timestamp := t2 |}
          (CastVote vh wh att x) = (w1, Failed ACL_not_allowed) /\
        flag (hasVoted w1) X = false /\
        flag (isRegistered w1) X = false /\
        totalYesVotes w1 = FHE.asEuint8 0 /\
        totalNoVotes w1 = FHE.asEuint8 0) /\
  (forall (self creator X : address) (t0 t1 : Z)
          (vh wh : FHE.externalEuint8) (att x : bytes) (vote weight : FHE.euint8),
      t0 + 86400 < uint256_limit ->
      t1 < t0 + 86400 ->
      FHE.fromExternal self X vh att = Some vote -> FHE.decrypt vote = 1 ->
      FHE.fromExternal self X wh att = Some weight -> FHE.decrypt weight = 5 ->
      exists w0 w2 : world,
        deploy self {| msg_sender := creator; block_timestamp := t0 |} 86400
        = inl w0 /\
        execute w0 {| timestamp := t1;
                      calls := [(creator, Init); (X, CastVote vh wh att x)] |}
        = w2 /\
        flag (hasVoted w2) X = true /\
        flag (isRegistered w2) X = true /\
        FHE.decrypt (totalYesVotes w2) = 5 /\
        FHE.decrypt (totalNoVotes w2) = 0).
Proof.
  split; [| split; [exact perform_counted_totals | split]].
  - intros w w' e vh wh att x Htx. apply transact_commits in Htx.
    inversion Htx as [| | | | | ? ? ? ? vote weight Ht Hi Hv Hx Hy | |]; subst.
    exists vote, weight.
    destruct (vote_counted_totals e x vote weight w) as [Hyes Hno]. auto.
  - intros self creator X t0 t1 t2 vh wh att x vote weight Ho Ht Hx Hy Hfresh.
    set (e0 := {| msg_sender := creator; block_timestamp := t0 |}).
    set (e1 := {| msg_sender := creator; block_timestamp := t1 |}).
    set (e2 := {| msg_sender := X; block_timestamp := t2 |}).
    set (w0 := set_votingEndTime (t0 + 86400) (set_admin creator (blank self))).
    set (w1 := set_initialized true
                 (set_totalNoVotes (FHE.asEuint8 0)
                    (set_totalYesVotes (FHE.asEuint8 0) w0))).
    exists w0, w1.
    split; [apply (deploy_ok self e0 86400); [reflexivity | exact Ho] |].
    split.
    { rewrite transact_init. simpl. by rewrite N.eqb_refl. }
    split; [| repeat split].
    unfold transact, perform, dispatch.
    rewrite (castVote_past_checks (fresh w1) e2 vh wh att x vote weight);
      try assumption; try reflexivity.
    assert (isAllowed (FHE.Euint8 (totalYesVotes (world_of (fresh w1))))
              (this (world_of (fresh w1)))
              (increments_made e2 x vote weight (fresh w1)) = false) as ->.
    { apply bool_decide_eq_false. simpl. intros Hin. apply Hfresh.
      destruct (auto_registered_frame e2 x w1) as (_ & _ & _ & _ & _ & _ & _ & Hp).
      rewrite Hp in Hin. simpl in Hin.
      unfold vote_handles. rewrite !elem_of_cons in *.
      repeat (destruct Hin as [Hin | Hin];
              [apply (f_equal fst) in Hin; simpl in Hin; auto 10 |]).
      by apply elem_of_nil in Hin. }
    reflexivity.
  - intros self creator X t0 t1 vh wh att x vote weight Ho Ht Hx Hv Hy Hwt.
    set (e0 := {| msg_sender := creator; block_timestamp := t0 |}).
    set (e1 := {| msg_sender := creator; block_timestamp := t1 |}).
    set (e2 := {| msg_sender := X; block_timestamp := t1 |}).
    set (w0 := set_votingEndTime (t0 + 86400) (set_admin creator (blank self))).
    set (s1 := {| world_of :=
                    set_initialized true
                      (set_totalNoVotes (FHE.asEuint8 0)
                         (set_totalYesVotes (FHE.asEuint8 0) w0));
                  transient :=
                    [(FHE.Euint8 (FHE.asEuint8 0), self);
                     (FHE.Euint8 (FHE.asEuint8 0), self)] |}).
    exists w0, (vote_counted e2 x vote weight (world_of s1)).
    split; [apply (deploy_ok self e0 86400); [reflexivity | exact Ho] |].
    assert (perform (fresh w0) e1 Init = (s1, Succeeded)) as Hinit.
    { unfold perform, dispatch. rewrite init_cases. simpl.
      by rewrite N.eqb_refl. }
    assert (perform s1 e2 (CastVote vh wh att x)
            = (vote_recorded e2 x vote weight s1, Succeeded)) as Hvote.
    { unfold perform, dispatch.
      rewrite (castVote_counted s1 e2 vh wh att x vote weight);
        try assumption; try reflexivity;
        apply isAllowed_elem; left; simpl; rewrite elem_of_cons; auto. }
    split.
    { unfold execute. simpl. fold e1. rewrite Hinit. simpl. fold e2.
      by rewrite Hvote. }
    destruct (vote_counted_totals e2 x vote weight (world_of s1)) as [Hyes Hno].
    rewrite Hyes, Hno, Hv, Hwt. simpl. rewrite !decrypt_asEuint8.
    split; [apply flag_insert_eq |].
    split; [apply (auto_registered_sender e2 x (world_of s1)) |].
    split; reflexivity.
Qed.

End Arithmetic.

(** * The claims on concrete runs *)

Lemma castVote_deadline_then_initialized_witness :
  (castVote (F := Mock.capability) (Mock.at_time Mock.voterX 10)
     (Mock.encrypt 1 Mock.voterX) (Mock.encrypt 5 Mock.voterX) Mock.proof []
     (fresh Mock.deployed)
   = Reverted Voting_closed (fresh Mock.deployed) /\
   transact Mock.deployed (Mock.at_time Mock.voterX 10)
     (Mock.ballot Mock.voterX 1 5)
   = (Mock.deployed, Failed Voting_closed)) /\
  (castVote (F := Mock.capability) (Mock.at_time Mock.voterX 9)
     (Mock.encrypt 1 Mock.voterX) (Mock.encrypt 5 Mock.voterX) Mock.proof []
     (fresh Mock.deployed)
   = Reverted Contract_not_initialized (fresh Mock.deployed) /\
   transact Mock.deployed (Mock.at_time Mock.voterX 9)
     (Mock.ballot Mock.voterX 1 5)
   = (Mock.deployed, Failed Contract_not_initialized)).
Proof.
  split.
  - apply (castVote_deadline_then_initialized (F := Mock.capability)
             Mock.deployed []).
    by vm_compute.
  - apply (castVote_deadline_then_initialized (F := Mock.capability)
             Mock.deployed []);
      by vm_compute.
Defined.

(** C1 as stated fails: before [init], a [castVote] made at the deadline
    reverts with "Voting closed", not with "Contract not initialized". *)
Lemma castVote_uninitialized_at_deadline :
  votingEndTime Mock.deployed = 10 /\
  initialized Mock.deployed = false /\
  snd (transact Mock.deployed (Mock.at_time Mock.voterX 10)
         (Mock.ballot Mock.voterX 1 5)) = Failed Voting_closed /\
  snd (transact Mock.deployed (Mock.at_time Mock.voterX 10)
         (Mock.ballot Mock.voterX 1 5)) <> Failed Contract_not_initialized.
Proof. by vm_compute. Qed.

Lemma failed_call_has_no_effect_witness :
  fst (transact Mock.opened (Mock.at_time Mock.voterX 10)
         (Mock.ballot Mock.voterX 1 5)) = Mock.opened /\
  ((exists dirty : frame,
       castVote (F := Mock.capability) (Mock.at_time Mock.voterX 5)
         (Mock.encrypt 1 Mock.voterY) (Mock.encrypt 5 Mock.voterX) Mock.proof []
         (fresh Mock.opened)
       = Reverted Invalid_ciphertext dirty /\
       flag (isRegistered (world_of dirty)) Mock.voterX = true /\
       log (world_of dirty)
       = log Mock.opened ++ [VoterRegistered Mock.voterX []]) /\
   perform (fresh Mock.opened) (Mock.at_time Mock.voterX 5)
     (CastVote (F := Mock.capability)
        (Mock.encrypt 1 Mock.voterY) (Mock.encrypt 5 Mock.voterX) Mock.proof [])
   = (fresh Mock.opened, Failed Invalid_ciphertext) /\
   transact Mock.opened (Mock.at_time Mock.voterX 5)
     (CastVote (F := Mock.capability)
        (Mock.encrypt 1 Mock.voterY) (Mock.encrypt 5 Mock.voterX) Mock.proof [])
   = (Mock.opened, Failed Invalid_ciphertext) /\
   flag (isRegistered
           (fst (transact Mock.opened (Mock.at_time Mock.voterX 5)
                   (CastVote (F := Mock.capability)
                      (Mock.encrypt 1 Mock.voterY) (Mock.encrypt 5 Mock.voterX)
                      Mock.proof []))))
     Mock.voterX = false).
Proof.
  split.
  - apply (proj1 (failed_call_has_no_effect (F := Mock.capability))
             Mock.opened _ (Mock.at_time Mock.voterX 10)
             (Mock.ballot Mock.voterX 1 5) Voting_closed).
    apply transact_status. by vm_compute.
  - apply (proj2 (proj2 (failed_call_has_no_effect (F := Mock.capability)))
             Mock.opened [] (Mock.at_time Mock.voterX 5)
             (Mock.encrypt 1 Mock.voterY) (Mock.encrypt 5 Mock.voterX) Mock.proof []).
    + apply mock_opened_reachable.
    + by vm_compute.
    + by vm_compute.
    + by vm_compute.
    + left. by vm_compute.
Defined.

Lemma one_vote_per_voter_witness :
  flag (hasVoted Mock.opened) Mock.voterX = false /\
  flag (hasVoted (run Mock.voted [Mock.single Mock.voterY 6
                                    (Mock.ballot Mock.voterY 0 3)]))
    Mock.voterX = true /\
  transact (run Mock.voted [Mock.single Mock.voterY 6
                              (Mock.ballot Mock.voterY 0 3)])
    (Mock.at_time Mock.voterX 7) (Mock.ballot Mock.voterX 0 9)
  = (run Mock.voted [Mock.single Mock.voterY 6 (Mock.ballot Mock.voterY 0 3)],
     Failed Already_voted).
Proof.
  assert (transact Mock.opened (Mock.at_time Mock.voterX 5)
            (Mock.ballot Mock.voterX 1 5) = (Mock.voted, Succeeded)) as Hfirst
    by (apply transact_status; by vm_compute).
  destruct (one_vote_per_voter (F := Mock.capability) _ _ _ _ _ _ _ Hfirst)
    as [Hbefore Hafter].
  split; [exact Hbefore |].
  exact (Hafter [Mock.single Mock.voterY 6 (Mock.ballot Mock.voterY 0 3)]
           (Mock.at_time Mock.voterX 7)
           (Mock.encrypt 0 Mock.voterX) (Mock.encrypt 9 Mock.voterX) Mock.proof []
           eq_refl).
Defined.

(** C3 as stated fails.  The round is opened at time 1 by the deployer's
    [init] and vote in one transaction; [voterX] votes at time 5, which
    succeeds; a second [castVote] of [voterX] made at the deadline reverts
    with "Voting closed", not with "Already voted". *)
Lemma second_vote_at_deadline :
  votingEndTime Mock.voted = 10 /\
  flag (hasVoted Mock.opened) Mock.voterX = false /\
  snd (transact Mock.opened (Mock.at_time Mock.voterX 5)
         (Mock.ballot Mock.voterX 1 5)) = Succeeded /\
  flag (hasVoted Mock.voted) Mock.voterX = true /\
  snd (transact Mock.voted (Mock.at_time Mock.voterX 10)
         (Mock.ballot Mock.voterX 1 5)) = Failed Voting_closed /\
  snd (transact Mock.voted (Mock.at_time Mock.voterX 10)
         (Mock.ballot Mock.voterX 1 5)) <> Failed Already_voted.
Proof. by vm_compute. Qed.

Lemma castVote_arithmetic_and_scenario_A_witness :
  (exists w0 w1 : world,
      deploy (F := Mock.capability) Mock.contract
        (Mock.at_time Mock.deployer 1000) 86400 = inl w0 /\
      transact w0 (Mock.at_time Mock.deployer 1500) Init = (w1, Succeeded) /\
      transact w1 (Mock.at_time Mock.voterX 2000) (Mock.ballot Mock.voterX 1 5)
      = (w1, Failed ACL_not_allowed) /\
      flag (hasVoted w1) Mock.voterX = false /\
      flag (isRegistered w1) Mock.voterX = false /\
      totalYesVotes w1 = FHE.asEuint8 0 /\
      totalNoVotes w1 = FHE.asEuint8 0) /\
  (exists w0 w2 : world,
      deploy (F := Mock.capability) Mock.contract
        (Mock.at_time Mock.deployer 1000) 86400 = inl w0 /\
      execute w0 {| timestamp := 1500;
                    calls := [(Mock.deployer, Init);
                              (Mock.deployer, Mock.ballot Mock.deployer 1 5)] |}
      = w2 /\
      flag (hasVoted w2) Mock.deployer = true /\
      flag (isRegistered w2) Mock.deployer = true /\
      FHE.decrypt (totalYesVotes w2) = 5 /\
      FHE.decrypt (totalNoVotes w2) = 0).
Proof.
  destruct (castVote_arithmetic_and_scenario_A (F := Mock.capability)
              (H := mock_homomorphic)) as (_ & _ & Hapart & Htogether).
  split.
  - apply (Hapart Mock.contract Mock.deployer Mock.voterX 1000 1500 2000
             (Mock.encrypt 1 Mock.voterX) (Mock.encrypt 5 Mock.voterX) Mock.proof []
             (Mock.Input (Mock.encrypt 1 Mock.voterX))
             (Mock.Input (Mock.encrypt 5 Mock.voterX))); try by vm_compute.
    apply (bool_decide_eq_false_1 _). by vm_compute.
  - apply (Htogether Mock.contract Mock.deployer Mock.deployer 1000 1500
             (Mock.encrypt 1 Mock.deployer) (Mock.encrypt 5 Mock.deployer) Mock.proof []
             (Mock.Input (Mock.encrypt 1 Mock.deployer))
             (Mock.Input (Mock.encrypt 5 Mock.deployer))); by vm_compute.
Defined.

Lemma castVote_at_or_after_deadline_witness :
  transact Mock.voted (Mock.at_time Mock.voterY 11) (Mock.ballot Mock.voterY 1 2)
  = (Mock.voted, Failed Voting_closed) /\
  taxonomy Voting_closed = Some VotingClosed.
Proof.
  apply (castVote_at_or_after_deadline (F := Mock.capability)).
  by vm_compute.
Defined.

Lemma init_is_one_shot_witness :
  transact Mock.deployed (Mock.at_time Mock.voterX 1) Init
  = (Mock.deployed, Failed Only_admin) /\
  (exists w1 : world,
      transact Mock.deployed (Mock.at_time Mock.deployer 1) Init
      = (w1, Succeeded) /\
      totalYesVotes w1 = FHE.asEuint8 0 /\
      totalNoVotes w1 = FHE.asEuint8 0 /\
      initialized w1 = true) /\
  transact (run Mock.initialized_alone
              [Mock.single Mock.deployer 5 (Mock.ballot Mock.deployer 1 1)])
    (Mock.at_time Mock.deployer 6) Init
  = (run Mock.initialized_alone
       [Mock.single Mock.deployer 5 (Mock.ballot Mock.deployer 1 1)],
     Failed Already_initialized).
Proof.
  destruct (init_is_one_shot (F := Mock.capability)) as (Hother & Hfirst & Hsecond).
  split; [apply Hother; by vm_compute |].
  split; [apply Hfirst; by vm_compute |].
  assert (transact Mock.deployed (Mock.at_time Mock.deployer 1) Init
          = (Mock.initialized_alone, Succeeded)) as Hopened
    by (apply transact_status; by vm_compute).
  exact (Hsecond _ _ _ Hopened
           [Mock.single Mock.deployer 5 (Mock.ballot Mock.deployer 1 1)]
           (Mock.at_time Mock.deployer 6)).
Defined.

Lemma voted_implies_registered_invariant_witness :
  voted_implies_registered Mock.voted /\
  voted_implies_registered
    (fst (transact Mock.voted (Mock.at_time Mock.voterY 6)
            (Mock.ballot Mock.voterY 0 3))) /\
  voted_implies_registered (execute Mock.deployed Mock.opening).
Proof.
  destruct (voted_implies_registered_invariant (F := Mock.capability))
    as (Hreach & Hstep & Htx & _).
  assert (voted_implies_registered Mock.voted) as Hinv
    by (apply Hreach, mock_voted_reachable).
  split; [exact Hinv |]. split; [apply Hstep, Hinv |].
  apply Htx, Hreach, mock_deployed_reachable.
Defined.


Lemma registerVoter_is_ungated_witness :
  initialized Mock.deployed = false /\
  votingEndTime Mock.deployed <= 99 /\
  exists w' : world,
    transact Mock.deployed (Mock.at_time Mock.deployer 99)
      (RegisterVoter Mock.voterY [])
    = (w', Succeeded) /\
    flag (isRegistered w') Mock.voterY = true /\
    log w' = log Mock.deployed ++ [VoterRegistered Mock.voterY []].
Proof.
  split; [by vm_compute |].
  split; [by vm_compute |].
  apply (registerVoter_is_ungated (F := Mock.capability) Mock.deployed
           (Mock.at_time Mock.deployer 99) Mock.voterY []);
    by vm_compute.
Defined.

(** C10 as stated fails: on the contract as deployed, before [init], the
    admin's [allowTallyAccess] and [makeTallyPublic] both revert, and
    nothing is granted, published or logged. *)
Lemma tally_access_fails_before_init :
  initialized Mock.deployed = false /\
  admin Mock.deployed = Mock.deployer /\
  snd (transact Mock.deployed (Mock.at_time Mock.deployer 3)
         (AllowTallyAccess Mock.voterY [])) = Failed Sender_not_allowed /\
  snd (transact Mock.deployed (Mock.at_time Mock.deployer 3) MakeTallyPublic)
  = Failed Sender_not_allowed /\
  length
    (FHE.allowed
       (permissions
          (fst (transact Mock.deployed (Mock.at_time Mock.deployer 3)
                  (AllowTallyAccess Mock.voterY []))))) = 0%nat /\
  length
    (FHE.publiclyDecryptable
       (permissions
          (fst (transact Mock.deployed (Mock.at_time Mock.deployer 3)
                  MakeTallyPublic)))) = 0%nat /\
  log (fst (transact Mock.deployed (Mock.at_time Mock.deployer 3)
              (AllowTallyAccess Mock.voterY []))) = [].
Proof. by vm_compute. Qed.

Lemma tally_access_needs_a_right_witness :
  ((forall (viewer : address) (x : bytes),
       viewer <> 0%N ->
       transact Mock.deployed (Mock.at_time Mock.deployer 3)
         (AllowTallyAccess viewer x)
       = (Mock.deployed, Failed Sender_not_allowed)) /\
   transact Mock.deployed (Mock.at_time Mock.deployer 3) MakeTallyPublic
   = (Mock.deployed, Failed Sender_not_allowed)) /\
  snd (perform (fresh Mock.voted) (Mock.at_time Mock.deployer 6)
         (AllowTallyAccess Mock.voterY [])) = Succeeded /\
  snd (perform (fresh Mock.voted) (Mock.at_time Mock.deployer 6)
         MakeTallyPublic) = Succeeded.
Proof.
  split.
  - apply (tally_access_needs_a_right (F := Mock.capability)
             Mock.deployed [] (Mock.at_time Mock.deployer 3));
      [by vm_compute |].
    exists Mock.contract, (Mock.at_time Mock.deployer 0), 10.
    by vm_compute.
  - destruct (tally_access_needs_a_right (F := Mock.capability)
                Mock.voted [] (Mock.at_time Mock.deployer 6))
      as (Hallow & Hpublic & _); [by vm_compute |].
    unfold fresh.
    rewrite (Hallow Mock.voterY []) by discriminate.
    rewrite Hpublic.
    split; by vm_compute.
Defined.

(** * Further properties of the contract *)

Section Lifecycle.
Context {F : FHE.Capability}.

(** X1.  The constructor rejects a duration that is not positive with
    "Duration must be positive", panics when [block.timestamp + duration]
    does not fit in a [uint256], and otherwise deploys a contract whose admin
    is the deployer, whose deadline is [block.timestamp + duration], which is
    not initialised, and in which nobody is registered, nobody has voted and
    no event has been logged. *)
Theorem constructor_outcome (self : address) (e : env) (d : Z) :
  (d <= 0 -> deploy self e d = inr Duration_must_be_positive) /\
  (0 < d -> uint256_limit <= block_timestamp e + d ->
   deploy self e d = inr Panic_overflow) /\
  (0 < d -> block_timestamp e + d < uint256_limit ->
   exists w : world,
     deploy self e d = inl w /\
     this w = self /\
     admin w = msg_sender e /\
     votingEndTime w = block_timestamp e + d /\
     initialized w = false /\
     (forall v : address,
         flag (isRegistered w) v = false /\ flag (hasVoted w) v = false) /\
     log w = []).
Proof.
  split; [| split].
  - intros Hd. unfold deploy, constructor. unfold_exec.
    assert ((0 <? d) = false) as -> by lia. reflexivity.
  - intros Hd Ho. unfold deploy, constructor. unfold_exec.
    assert ((0 <? d) = true) as -> by lia. simpl.
    assert ((block_timestamp e + d <? uint256_limit) = false) as -> by lia.
    reflexivity.
  - intros Hd Ho. eexists. split; [by apply deploy_ok |]. simpl.
    repeat split; unfold flag; by rewrite lookup_empty.
Qed.

(** X2.  The address of the contract, its admin and its deadline are fixed
    at deployment: after any sequence of transactions they are still the
    deployment address, the deployer, and the deployment time plus the
    duration. *)
Theorem admin_and_deadline_are_immutable
    (self : address) (e : env) (d : Z) (w0 : world) (txs : list transaction) :
  deploy self e d = inl w0 ->
  this (run w0 txs) = self /\
  admin (run w0 txs) = msg_sender e /\
  votingEndTime (run w0 txs) = block_timestamp e + d.
Proof.
  intros Hd. apply deploy_inl in Hd as (_ & _ & ->).
  destruct (run_frame txs
              (set_votingEndTime (block_timestamp e + d)
                 (set_admin (msg_sender e) (blank self))))
    as (-> & -> & -> & _).
  auto.
Qed.

(** X3.  The three flags of the contract are monotonic: through any sequence
    of transactions, a registered address stays registered, a voter who has
    voted stays marked as having voted, and an initialised contract stays
    initialised. *)
Theorem flags_never_reset (w : world) (txs : list transaction) :
  (forall v : address,
      flag (isRegistered w) v = true -> flag (isRegistered (run w txs)) v = true) /\
  (forall v : address,
      flag (hasVoted w) v = true -> flag (hasVoted (run w txs)) v = true) /\
  (initialized w = true -> initialized (run w txs) = true).
Proof.
  destruct (run_frame txs w) as (_ & _ & _ & Hi & Hv & Hr). auto.
Qed.

(** X4.  [registerVoter] checks the caller first, then the address, then the
    registry: a caller other than the admin gets "Only admin" whatever the
    address; the admin gets "Zero address" for [address(0)].  Registration
    is one-shot: once an address is registered, by the admin or by its own
    first vote, the admin's [registerVoter] for it fails with "Already
    registered" after any further transactions.  A failed call changes
    nothing. *)
Theorem registerVoter_checks_and_is_one_shot
    (w : world) (voter : address) (x : bytes) :
  (forall e : env,
      msg_sender e <> admin w ->
      transact w e (RegisterVoter voter x) = (w, Failed Only_admin)) /\
  (forall e : env,
      msg_sender e = admin w -> voter = 0%N ->
      transact w e (RegisterVoter voter x) = (w, Failed Zero_address)) /\
  (forall (txs : list transaction) (e : env),
      flag (isRegistered w) voter = true ->
      voter <> 0%N ->
      msg_sender e = admin w ->
      transact (run w txs) e (RegisterVoter voter x)
      = (run w txs, Failed Already_registered)).
Proof.
  split; [| split].
  - intros e Hs. rewrite transact_registerVoter.
    apply N.eqb_neq in Hs. by rewrite Hs.
  - intros e Hs ->. rewrite transact_registerVoter.
    by rewrite Hs, N.eqb_refl.
  - intros txs e Hr Hz Hs.
    destruct (run_frame txs w) as (_ & Ha & _ & _ & _ & Hr').
    rewrite transact_registerVoter.
    apply N.eqb_neq in Hz. rewrite Ha, Hs, N.eqb_refl, Hz, (Hr' voter Hr).
    reflexivity.
Qed.

(** X5.  A caller who is already registered and has not voted casts a vote
    without being registered again: when the contract holds a right on both
    of its tallies, the call logs [VoteCast] alone, leaves [isRegistered] as
    it was, and marks the caller as having voted. *)
Theorem castVote_of_registered_voter
    (w : world) (rights : list (FHE.handle * address)) (e : env)
    (vh wh : FHE.externalEuint8) (att x : bytes) (vote weight : FHE.euint8) :
  block_timestamp e < votingEndTime w ->
  initialized w = true ->
  flag (isRegistered w) (msg_sender e) = true ->
  flag (hasVoted w) (msg_sender e) = false ->
  FHE.fromExternal (this w) (msg_sender e) vh att = Some vote ->
  FHE.fromExternal (this w) (msg_sender e) wh att = Some weight ->
  isAllowed (FHE.Euint8 (totalYesVotes w)) (this w)
    {| world_of := w; transient := rights |} = true ->
  isAllowed (FHE.Euint8 (totalNoVotes w)) (this w)
    {| world_of := w; transient := rights |} = true ->
  exists s' : frame,
    perform {| world_of := w; transient := rights |} e (CastVote vh wh att x)
    = (s', Succeeded) /\
    log (world_of s') = log w ++ [VoteCast (msg_sender e) x] /\
    isRegistered (world_of s') = isRegistered w /\
    flag (hasVoted (world_of s')) (msg_sender e) = true.
Proof.
  intros Ht Hi Hr Hv Hx Hy Hyes Hno.
  set (s := {| world_of := w; transient := rights |}).
  exists (vote_recorded e x vote weight s). split.
  { unfold perform, dispatch.
    by rewrite (castVote_counted s e vh wh att x vote weight). }
  unfold vote_recorded, vote_counted, auto_registered. simpl. rewrite Hr. simpl.
  split; [reflexivity |]. split; [reflexivity | apply flag_insert_eq].
Qed.

End Lifecycle.

Section Access.
Context {F : FHE.Capability}.

(** X6.  [grantMyVoteDecryptAccess] tests registration before it looks at
    the ciphertext: an unregistered caller gets "Not registered" even with a
    valid ciphertext, and a registered caller with a rejected ciphertext gets
    the capability's rejection.  When it succeeds its only effect is one new
    grant, of the decoded ciphertext to the caller: storage and the event log
    are untouched.  It is not gated by the deadline or by [init]. *)
Theorem grantMyVoteDecryptAccess_outcome
    (w : world) (e : env) (vh : FHE.externalEuint8) (att : bytes) :
  (flag (isRegistered w) (msg_sender e) = false ->
   transact w e (GrantMyVoteDecryptAccess vh att) = (w, Failed Not_registered)) /\
  (flag (isRegistered w) (msg_sender e) = true ->
   FHE.fromExternal (this w) (msg_sender e) vh att = None ->
   transact w e (GrantMyVoteDecryptAccess vh att)
   = (w, Failed Invalid_ciphertext)) /\
  (forall vote : FHE.euint8,
      flag (isRegistered w) (msg_sender e) = true ->
      FHE.fromExternal (this w) (msg_sender e) vh att = Some vote ->
      transact w e (GrantMyVoteDecryptAccess vh att)
      = (set_permissions
           (FHE.allow (FHE.Euint8 vote) (msg_sender e) (permissions w)) w,
         Succeeded)).
Proof.
  unfold transact, perform, dispatch. rewrite grantMyVoteDecryptAccess_cases.
  simpl. split; [| split].
  - by intros ->.
  - by intros -> ->.
  - by intros vote -> ->.
Qed.

(** X7.  A voter whose [castVote] succeeded can, at any later time and
    after any further transactions, also after the deadline, obtain decrypt
    access to the vote ciphertext of that call: [grantMyVoteDecryptAccess]
    with the same handle and attestation succeeds and grants the caller
    exactly that ciphertext. *)
Theorem voter_can_always_reopen_own_vote
    (w w1 : world) (e : env) (vh wh : FHE.externalEuint8) (att x : bytes) :
  transact w e (CastVote vh wh att x) = (w1, Succeeded) ->
  exists vote : FHE.euint8,
    FHE.fromExternal (this w) (msg_sender e) vh att = Some vote /\
    forall (txs : list transaction) (e2 : env),
      msg_sender e2 = msg_sender e ->
      transact (run w1 txs) e2 (GrantMyVoteDecryptAccess vh att)
      = (set_permissions
           (FHE.allow (FHE.Euint8 vote) (msg_sender e)
              (permissions (run w1 txs))) (run w1 txs),
         Succeeded).
Proof.
  intros Htx. apply transact_commits in Htx.
  inversion Htx as [| | | | | ? ? ? ? vote weight Ht Hi Hv Hx Hy | |]; subst.
  exists vote. split; [exact Hx |].
  intros txs e2 Hs.
  destruct (run_frame txs (vote_counted e x vote weight w))
    as (Hthis & _ & _ & _ & _ & Hr).
  unfold transact, perform, dispatch. rewrite grantMyVoteDecryptAccess_cases.
  simpl. rewrite Hs, Hthis. simpl.
  destruct (auto_registered_frame e x w) as (-> & _).
  rewrite Hr by (simpl; apply auto_registered_sender).
  by rewrite Hx.
Qed.

End Access.

Section Validity.
Context {F : FHE.Capability} {H : Homomorphic F}.

(** Modelled from the spec: the semantics of the FHE library's comparison
    and disjunction, which are not part of this repository.  [decryptBool] is
    the plaintext behind an [ebool]; [FHE.eq] compares plaintexts and
    [FHE.or] is the disjunction of plaintexts. *)
Variable decryptBool : FHE.ebool -> bool.
Hypothesis decrypt_eq : forall a b : FHE.euint8,
    decryptBool (FHE.eq a b) = Z.eqb (FHE.decrypt a) (FHE.decrypt b).
Hypothesis decrypt_or : forall a b : FHE.ebool,
    decryptBool (FHE.or a b) = decryptBool a || decryptBool b.

(** X8.  [verifyVote] has no precondition besides the ciphertext being
    accepted: any caller, at any time, registered or not.  It changes nothing
    but the permissions, where it grants the caller one encrypted boolean,
    whose plaintext is true exactly when the plaintext of the vote is 0
    or 1. *)
Theorem verifyVote_grants_validity_bit
    (w : world) (e : env) (vh : FHE.externalEuint8) (att : bytes)
    (vote : FHE.euint8) :
  FHE.fromExternal (this w) (msg_sender e) vh att = Some vote ->
  exists isValid : FHE.ebool,
    transact w e (VerifyVote vh att)
    = (set_permissions
         (FHE.allow (FHE.Ebool isValid) (msg_sender e) (permissions w)) w,
       Succeeded) /\
    decryptBool isValid = Z.eqb (FHE.decrypt vote) 0 || Z.eqb (FHE.decrypt vote) 1.
Proof.
  intros Hx. eexists. split.
  - unfold transact, perform, dispatch. rewrite verifyVote_cases. simpl.
    rewrite Hx. reflexivity.
  - rewrite decrypt_or, !decrypt_eq, !decrypt_asEuint8. reflexivity.
Qed.

End Validity.

Section Transitions.
Context {F : FHE.Capability}.

(** X9.  A vote is counted only when everything was in order: if
    [castVote] succeeds, then it was sent strictly before the deadline,
    [init] had run, the caller had not voted yet, and the capability
    accepted both ciphertexts. *)
Theorem castVote_succeeds_only_if
    (w w' : world) (e : env) (vh wh : FHE.externalEuint8) (att x : bytes) :
  transact w e (CastVote vh wh att x) = (w', Succeeded) ->
  block_timestamp e < votingEndTime w /\
  initialized w = true /\
  flag (hasVoted w) (msg_sender e) = false /\
  exists vote weight : FHE.euint8,
    FHE.fromExternal (this w) (msg_sender e) vh att = Some vote /\
    FHE.fromExternal (this w) (msg_sender e) wh att = Some weight.
Proof.
  intros Htx. apply transact_commits in Htx.
  inversion Htx; subst. eauto 10.
Qed.

(** X10.  The four administrative functions succeed for the admin only:
    whenever [init], [registerVoter], [allowTallyAccess] or
    [makeTallyPublic] succeeds, its sender is the admin; for any other
    sender each of them fails with "Only admin" and changes nothing, before
    any of its other checks is looked at. *)
Theorem admin_functions_are_gated (w : world) (e : env) (c : call) :
  match c with
  | Init | RegisterVoter _ _ | AllowTallyAccess _ _ | MakeTallyPublic =>
      (forall w' : world,
          transact w e c = (w', Succeeded) -> msg_sender e = admin w) /\
      (msg_sender e <> admin w -> transact w e c = (w, Failed Only_admin))
  | _ => True
  end.
Proof.
  destruct c as [| voter x | viewer x | | | vh wh att x | vh att | vh att];
    try exact I;
    (split;
     [intros w' Htx; apply transact_commits in Htx; by inversion Htx
     | intros Hs; apply N.eqb_neq in Hs; unfold transact, perform, dispatch ]).
  - by rewrite init_cases; simpl; rewrite Hs.
  - by rewrite registerVoter_cases; simpl; rewrite Hs.
  - by rewrite allowTallyAccess_cases; simpl; rewrite Hs.
  - by rewrite makeTallyPublic_cases; simpl; rewrite Hs.
Qed.

End Transitions.

Lemma cast_voters_app (l1 l2 : list event) :
  cast_voters (l1 ++ l2) = cast_voters l1 ++ cast_voters l2.
Proof.
  induction l1 as [| [v x | v x | v x] rest IH]; simpl; congruence.
Qed.

Lemma registered_voters_app (l1 l2 : list event) :
  registered_voters (l1 ++ l2) = registered_voters l1 ++ registered_voters l2.
Proof.
  induction l1 as [| [v x | v x | v x] rest IH]; simpl; congruence.
Qed.

Section Invariants.
Context {F : FHE.Capability}.

Lemma commits_closed (w w' : world) (e : env) (c : call) :
  commits w e c w' ->
  initialized w = true ->
  votingEndTime w <= block_timestamp e ->
  totalYesVotes w' = totalYesVotes w /\
  totalNoVotes w' = totalNoVotes w /\
  hasVoted w' = hasVoted w.
Proof.
  intros Hc Hi Ht. inversion Hc; subst; simpl; auto; try congruence; try lia.
Qed.

Lemma execute_closed (w : world) (tx : transaction) :
  initialized w = true ->
  votingEndTime w <= timestamp tx ->
  totalYesVotes (execute w tx) = totalYesVotes w /\
  totalNoVotes (execute w tx) = totalNoVotes w /\
  hasVoted (execute w tx) = hasVoted w.
Proof.
  intros Hi Ht.
  apply (execute_ind
           (fun w' => extends w w' /\
                      totalYesVotes w' = totalYesVotes w /\
                      totalNoVotes w' = totalNoVotes w /\
                      hasVoted w' = hasVoted w));
    [| auto using extends_refl].
  intros w1 w2 sender c (Hext & Hyes & Hno & Hv) Hc.
  pose proof Hext as (_ & _ & Hend & Hi1 & _).
  destruct (commits_closed _ _ _ _ Hc) as (Hyes' & Hno' & Hv');
    [auto | simpl; lia |].
  split; [eauto using extends_trans, commits_extends |].
  repeat split; congruence.
Qed.

(** X11.  Once [init] has run, the round is frozen from the deadline on:
    whatever transactions are made at or after [votingEndTime], by anyone,
    both tallies and the record of who has voted stay exactly as they
    were. *)
Theorem tallies_frozen_after_deadline (w : world) (txs : list transaction) :
  initialized w = true ->
  Forall (fun tx => votingEndTime w <= timestamp tx) txs ->
  totalYesVotes (run w txs) = totalYesVotes w /\
  totalNoVotes (run w txs) = totalNoVotes w /\
  hasVoted (run w txs) = hasVoted w.
Proof.
  revert w. induction txs as [| tx rest IH]; intros w Hi Hall; simpl; [auto |].
  inversion Hall as [| tx' l Ht Hrest]; subst.
  destruct (execute_closed w tx Hi Ht) as (Hyes & Hno & Hv).
  destruct (execute_frame w tx) as (_ & _ & Hend & Hi' & _).
  destruct (IH (execute w tx)) as (-> & -> & ->);
    [auto | by rewrite Hend | auto].
Qed.

Lemma uninitialized_nobody_voted (w : world) :
  reachable w -> initialized w = false ->
  forall v : address, flag (hasVoted w) v = false.
Proof.
  revert w.
  apply (reachable_ind_commits
           (fun w => initialized w = false ->
                     forall v : address, flag (hasVoted w) v = false)).
  - intros self e d _ _ _ v. unfold flag. simpl. by rewrite lookup_empty.
  - intros w w' e c _ IH Hc.
    inversion Hc; subst; simpl; auto; try discriminate.
    destruct (auto_registered_frame e x w) as (_ & _ & _ & -> & _).
    congruence.
Qed.

Lemma uninitialized_nothing_cast (w : world) :
  reachable w -> initialized w = false -> cast_voters (log w) = [].
Proof.
  revert w.
  apply (reachable_ind_commits
           (fun w => initialized w = false -> cast_voters (log w) = [])).
  - reflexivity.
  - intros w w' e c _ IH Hc.
    inversion Hc; subst; simpl; auto; try discriminate.
    + intros Hi. rewrite cast_voters_app, (IH Hi). reflexivity.
    + intros Hi. rewrite cast_voters_app, (IH Hi). reflexivity.
    + destruct (auto_registered_frame e x w) as (_ & _ & _ & -> & _).
      congruence.
Qed.

(** X12.  Before [init] has run nothing has been counted: in every
    reachable world with [initialized] false, nobody is marked as having
    voted, the log holds no [VoteCast] event, and both tallies are still
    the handle of a slot never written. *)
Theorem nothing_counted_before_init (w : world) :
  reachable w ->
  initialized w = false ->
  (forall v : address, flag (hasVoted w) v = false) /\
  cast_voters (log w) = [] /\
  totalYesVotes w = FHE.uninitialized /\
  totalNoVotes w = FHE.uninitialized.
Proof.
  intros Hreach Hi.
  split; [by apply uninitialized_nobody_voted |].
  split; [by apply uninitialized_nothing_cast |].
  by apply reachable_uninitialized.
Qed.

End Invariants.

Section Tally.
Context {F : FHE.Capability} {H : Homomorphic F}.

Lemma reachable_tallies_in_range (w : world) :
  reachable w ->
  initialized w = true ->
  0 <= FHE.decrypt (totalYesVotes w) < uint8_limit /\
  0 <= FHE.decrypt (totalNoVotes w) < uint8_limit.
Proof.
  assert (forall z : Z, 0 <= z mod uint8_limit < uint8_limit) as Hmod
    by (intros z; by apply Z.mod_pos_bound).
  revert w.
  apply (reachable_ind_commits
           (fun w => initialized w = true ->
                     0 <= FHE.decrypt (totalYesVotes w) < uint8_limit /\
                     0 <= FHE.decrypt (totalNoVotes w) < uint8_limit)).
  - discriminate.
  - intros w w' e c _ IH Hc. inversion Hc; subst; simpl; auto.
    + intros _. rewrite decrypt_asEuint8. auto.
    + intros _. rewrite !decrypt_add. auto.
Qed.

(** X13.  Whatever plaintext the vote ciphertext holds, in [{0, 1}] or not,
    a counted vote raises the sum of the two tallies by exactly the weight,
    modulo [2^8]: the yes increment [v * wt] and the no increment
    [(1 - v) * wt] always add up to [wt]. *)
Theorem castVote_adds_weight_to_sum
    (w w' : world) (e : env) (vh wh : FHE.externalEuint8) (att x : bytes) :
  transact w e (CastVote vh wh att x) = (w', Succeeded) ->
  exists vote weight : FHE.euint8,
    FHE.fromExternal (this w) (msg_sender e) vh att = Some vote /\
    FHE.fromExternal (this w) (msg_sender e) wh att = Some weight /\
    (FHE.decrypt (totalYesVotes w') + FHE.decrypt (totalNoVotes w'))
      mod uint8_limit =
    (FHE.decrypt (totalYesVotes w) + FHE.decrypt (totalNoVotes w)
     + FHE.decrypt weight) mod uint8_limit.
Proof.
  intros Htx. apply transact_commits in Htx.
  inversion Htx as [| | | | | vh' wh' att' x' vote weight Ht Hi Hv Hx Hy | |];
    subst.
  exists vote, weight. split; [exact Hx |]. split; [exact Hy |].
  destruct (vote_counted_totals e x vote weight w) as [-> ->].
  rewrite <- Zplus_mod. f_equal. ring.
Qed.

(** X14.  In a reachable world, a counted vote whose plaintext is 1 adds
    the weight to the yes tally (modulo [2^8]) and leaves the plaintext of
    the no tally as it was; a counted vote whose plaintext is 0 does the
    opposite. *)
Theorem binary_vote_moves_one_tally
    (w w' : world) (e : env) (vh wh : FHE.externalEuint8) (att x : bytes) :
  reachable w ->
  transact w e (CastVote vh wh att x) = (w', Succeeded) ->
  exists vote weight : FHE.euint8,
    FHE.fromExternal (this w) (msg_sender e) vh att = Some vote /\
    FHE.fromExternal (this w) (msg_sender e) wh att = Some weight /\
    (FHE.decrypt vote = 1 ->
     FHE.decrypt (totalYesVotes w') =
     (FHE.decrypt (totalYesVotes w) + FHE.decrypt weight) mod uint8_limit /\
     FHE.decrypt (totalNoVotes w') = FHE.decrypt (totalNoVotes w)) /\
    (FHE.decrypt vote = 0 ->
     FHE.decrypt (totalYesVotes w') = FHE.decrypt (totalYesVotes w) /\
     FHE.decrypt (totalNoVotes w') =
     (FHE.decrypt (totalNoVotes w) + FHE.decrypt weight) mod uint8_limit).
Proof.
  intros Hreach Htx. apply transact_commits in Htx.
  inversion Htx as [| | | | | vh' wh' att' x' vote weight Ht Hi Hv Hx Hy | |];
    subst.
  exists vote, weight. split; [exact Hx |]. split; [exact Hy |].
  destruct (vote_counted_totals e x vote weight w) as [-> ->].
  destruct (reachable_tallies_in_range w Hreach Hi) as [Hyes Hno].
  split; intros ->.
  - split; [f_equal; ring |].
    replace (FHE.decrypt (totalNoVotes w) + (1 - 1) * FHE.decrypt weight)
      with (FHE.decrypt (totalNoVotes w)) by ring.
    by apply Z.mod_small.
  - split; [| f_equal; ring].
    replace (FHE.decrypt (totalYesVotes w) + 0 * FHE.decrypt weight)
      with (FHE.decrypt (totalYesVotes w)) by ring.
    by apply Z.mod_small.
Qed.

End Tally.

Section Permissions.
Context {F : FHE.Capability}.

Lemma commits_permissions (w w' : world) (e : env) (c : call) :
  commits w e c w' ->
  exists (grants : list (FHE.handle * address)) (published : list FHE.handle),
    FHE.allowed (permissions w') = FHE.allowed (permissions w) ++ grants /\
    FHE.publiclyDecryptable (permissions w')
    = FHE.publiclyDecryptable (permissions w) ++ published /\
    (msg_sender e <> admin w ->
     published = [] /\
     Forall (fun g => snd g = this w \/ snd g = msg_sender e) grants).
Proof.
  intros Hc.
  inversion Hc; subst; simpl;
    try (exists [], []; rewrite !app_nil_r; by auto).
  + eexists [_; _], []. rewrite <- !app_assoc, app_nil_r. simpl.
    repeat split; auto; congruence.
  + eexists [], [_; _]. rewrite <- !app_assoc, app_nil_r. simpl.
    repeat split; auto; congruence.
  + eexists [_; _], []. rewrite <- !app_assoc, app_nil_r. simpl.
    destruct (auto_registered_frame e x w)
      as (-> & _ & _ & _ & _ & _ & _ & ->).
    repeat split; auto.
  + eexists [_], []. rewrite app_nil_r. simpl. repeat split; auto.
  + eexists [_], []. rewrite app_nil_r. simpl. repeat split; auto.
Qed.

Lemma transact_permissions (w : world) (e : env) (c : call) :
  exists (grants : list (FHE.handle * address)) (published : list FHE.handle),
    FHE.allowed (permissions (fst (transact w e c)))
    = FHE.allowed (permissions w) ++ grants /\
    FHE.publiclyDecryptable (permissions (fst (transact w e c)))
    = FHE.publiclyDecryptable (permissions w) ++ published /\
    (msg_sender e <> admin w ->
     published = [] /\
     Forall (fun g => snd g = this w \/ snd g = msg_sender e) grants).
Proof.
  apply transact_ind_cases.
  - exists [], []. rewrite !app_nil_r. auto.
  - intros w' Hc. by apply (commits_permissions w w' e c).
Qed.

(** Access is never revoked: through any sequence of transactions the
    list of grants and the list of publicly decryptable handles only grow,
    each keeping what it held as a prefix. *)
Lemma permissions_only_grow (w : world) (txs : list transaction) :
  FHE.allowed (permissions w) `prefix_of` FHE.allowed (permissions (run w txs)) /\
  FHE.publiclyDecryptable (permissions w)
    `prefix_of` FHE.publiclyDecryptable (permissions (run w txs)).
Proof.
  apply (run_ind
           (fun w' =>
              FHE.allowed (permissions w) `prefix_of` FHE.allowed (permissions w') /\
              FHE.publiclyDecryptable (permissions w)
                `prefix_of` FHE.publiclyDecryptable (permissions w')));
    [| done].
  intros w1 w2 e c [IHa IHp] Hc.
  destruct (commits_permissions _ _ _ _ Hc) as (grants & published & Ha & Hp & _).
  split; (etrans; [eassumption |]).
  - rewrite Ha. by apply prefix_app_r.
  - rewrite Hp. by apply prefix_app_r.
Qed.

(** X15.  Only the admin can open the tallies to others: a transaction sent
    by anyone else marks nothing publicly decryptable, and every grant it
    adds is to its own sender or to the contract itself. *)
Theorem only_admin_opens_access (w : world) (e : env) (c : call) :
  msg_sender e <> admin w ->
  FHE.publiclyDecryptable (permissions (fst (transact w e c)))
  = FHE.publiclyDecryptable (permissions w) /\
  exists grants : list (FHE.handle * address),
    FHE.allowed (permissions (fst (transact w e c)))
    = FHE.allowed (permissions w) ++ grants /\
    Forall (fun g => snd g = this w \/ snd g = msg_sender e) grants.
Proof.
  intros Hs.
  destruct (transact_permissions w e c) as (grants & published & Ha & Hp & Hna).
  destruct (Hna Hs) as [-> Hg]. rewrite app_nil_r in Hp. eauto.
Qed.

End Permissions.

Section AuditLog.
Context {F : FHE.Capability}.

Lemma tracks_empty : tracks ∅ [].
Proof.
  split; [| constructor]. intros v. unfold flag. rewrite lookup_empty. simpl.
  split; [discriminate | by intros ?%elem_of_nil].
Qed.

Lemma tracks_insert (m : gmap N bool) (l : list address) (a : address) :
  tracks m l -> flag m a = false -> tracks (<[a := true]> m) (l ++ [a]).
Proof.
  intros [Hiff Hnd] Hfresh.
  assert (a ∉ l) as Hnotin by (intros Hin%Hiff; congruence).
  split.
  - intros v. rewrite flag_insert, elem_of_app, list_elem_of_singleton.
    case_decide as Hd; [subst; tauto |].
    rewrite Hiff. split; [tauto | intros [? | ?]; [done | congruence]].
  - apply NoDup_app. repeat split; [done | | apply NoDup_singleton].
    intros v Hin ->%list_elem_of_singleton. done.
Qed.

Lemma reachable_log_tracks (w : world) :
  reachable w ->
  tracks (isRegistered w) (registered_voters (log w)) /\
  tracks (hasVoted w) (cast_voters (log w)).
Proof.
  revert w.
  apply (reachable_ind_commits
           (fun w => tracks (isRegistered w) (registered_voters (log w)) /\
                     tracks (hasVoted w) (cast_voters (log w)))).
  - intros self e d _ _. simpl. split; apply tracks_empty.
  - intros w w' e c _ [Hreg Hcast] Hc.
    inversion Hc; subst; simpl; auto.
    + rewrite registered_voters_app, cast_voters_app. simpl.
      rewrite app_nil_r. split; [by apply tracks_insert | done].
    + rewrite registered_voters_app, cast_voters_app. simpl.
      by rewrite !app_nil_r.
    + rewrite registered_voters_app, cast_voters_app. simpl.
      rewrite app_nil_r.
      unfold auto_registered.
      destruct (flag (isRegistered w) (msg_sender e)) eqn:Hr; simpl.
      * split; [done | by apply tracks_insert].
      * rewrite registered_voters_app, cast_voters_app. simpl.
        rewrite app_nil_r.
        split; by apply tracks_insert.
Qed.

(** X16.  The event log is a faithful record of the two registries: in
    every reachable world an address is registered exactly when the log
    holds a [VoterRegistered] event for it, has voted exactly when the log
    holds a [VoteCast] event for it, and no address has two events of the
    same kind. *)
Theorem log_matches_registries (w : world) :
  reachable w ->
  (forall v : address,
      flag (isRegistered w) v = true <-> v ∈ registered_voters (log w)) /\
  (forall v : address,
      flag (hasVoted w) v = true <-> v ∈ cast_voters (log w)) /\
  NoDup (registered_voters (log w)) /\
  NoDup (cast_voters (log w)).
Proof.
  intros Hreach.
  destruct (reachable_log_tracks w Hreach) as [[Hr Hrn] [Hv Hvn]]. auto.
Qed.

Lemma commits_log (w w' : world) (e : env) (c : call) :
  commits w e c w' -> exists events : list event, log w' = log w ++ events.
Proof.
  intros Hc. inversion Hc; subst; simpl;
    try (exists []; by rewrite app_nil_r); eauto.
  unfold auto_registered.
  destruct (flag (isRegistered w) (msg_sender e)); simpl; eauto.
  rewrite <- app_assoc. eauto.
Qed.

(** The event log is append-only: through any sequence of transactions
    the events already logged stay where they are, as a prefix of the later
    log. *)
Lemma log_is_append_only (w : world) (txs : list transaction) :
  log w `prefix_of` log (run w txs).
Proof.
  apply (run_ind (fun w' => log w `prefix_of` log w')); [| done].
  intros w1 w2 e c IH Hc.
  destruct (commits_log _ _ _ _ Hc) as [events Hl].
  etrans; [exact IH |]. rewrite Hl. by apply prefix_app_r.
Qed.

End AuditLog.

Section Rights.
Context {F : FHE.Capability}.

Lemma holds_allow (w : world) (h h' : FHE.handle) (account : address) :
  holds w h ->
  holds (set_permissions (FHE.allow h' account (permissions w)) w) h.
Proof. unfold holds. simpl. rewrite elem_of_app. auto. Qed.

(** Once a vote has been counted, the contract holds a lasting right on
    both of its tallies. *)
Lemma counted_vote_holds (w : world) :
  reachable w ->
  cast_voters (log w) <> [] ->
  holds w (FHE.Euint8 (totalYesVotes w)) /\
  holds w (FHE.Euint8 (totalNoVotes w)).
Proof.
  revert w.
  apply (reachable_ind_commits
           (fun w => cast_voters (log w) <> [] ->
                     holds w (FHE.Euint8 (totalYesVotes w)) /\
                     holds w (FHE.Euint8 (totalNoVotes w)))).
  - intros self e d _ _ Hlog. by destruct Hlog.
  - intros w w' e c Hreach IH Hc.
    inversion Hc; subst; simpl.
    + intros Hlog. destruct Hlog. by apply uninitialized_nothing_cast.
    + rewrite cast_voters_app. simpl. rewrite app_nil_r. exact IH.
    + rewrite cast_voters_app. simpl. rewrite app_nil_r.
      intros Hlog. destruct (IH Hlog) as [Hyes Hno].
      split; unfold holds in *; simpl; rewrite !elem_of_app; auto.
    + exact IH.
    + exact IH.
    + intros _. unfold holds. simpl.
      rewrite !elem_of_app, !list_elem_of_singleton. auto.
    + intros Hlog. destruct (IH Hlog) as [Hyes Hno].
      split; by apply holds_allow.
    + intros Hlog. destruct (IH Hlog) as [Hyes Hno].
      split; by apply holds_allow.
Qed.

(** X25.  The first counted vote opens the round for good.  In every
    reachable world whose log holds a [VoteCast] event, the contract holds a
    lasting right on both tallies, and a [castVote] sent in a transaction of
    its own, before the deadline, by a caller who has not voted, with two
    ciphertexts the capability accepts, is counted. *)
Theorem counted_vote_opens_the_round
    (w : world) (e : env) (vh wh : FHE.externalEuint8) (att x : bytes)
    (vote weight : FHE.euint8) :
  reachable w ->
  cast_voters (log w) <> [] ->
  (holds w (FHE.Euint8 (totalYesVotes w)) /\
   holds w (FHE.Euint8 (totalNoVotes w))) /\
  (block_timestamp e < votingEndTime w ->
   flag (hasVoted w) (msg_sender e) = false ->
   FHE.fromExternal (this w) (msg_sender e) vh att = Some vote ->
   FHE.fromExternal (this w) (msg_sender e) wh att = Some weight ->
   transact w e (CastVote vh wh att x)
   = (vote_counted e x vote weight w, Succeeded)).
Proof.
  intros Hreach Hlog.
  pose proof (counted_vote_holds w Hreach Hlog) as [Hyes Hno].
  split; [auto |].
  intros Ht Hv Hx Hy.
  assert (initialized w = true) as Hi.
  { destruct (initialized w) eqn:Hi; [reflexivity |].
    destruct Hlog. by apply uninitialized_nothing_cast. }
  unfold transact, perform, dispatch.
  rewrite (castVote_counted (fresh w) e vh wh att x vote weight);
    try assumption; try (by apply isAllowed_fresh).
  reflexivity.
Qed.

End Rights.
(** * Properties of the front end *)

Module FrontendFacts.
Import Frontend.

Lemma concat_empty_cons (x : string) (xs : list string) :
  String.concat "" (x :: xs) = x +:+ String.concat "" xs.
Proof.
  destruct xs as [| y ys]; [| reflexivity].
  cbn [String.concat].
  induction x as [| c x IH]; [reflexivity |].
  change (String c x = String c (x +:+ "")). by rewrite <- IH.
Qed.

Lemma string_app_length (s t : string) :
  String.length (s +:+ t) = (String.length s + String.length t)%nat.
Proof.
  induction s as [| c s IH]; [reflexivity |].
  change (S (String.length (s +:+ t)) = S (String.length s + String.length t)).
  by rewrite IH.
Qed.

Lemma two_chars_app (hi lo : ascii) (rest : string) :
  String hi (String lo EmptyString) +:+ rest = String hi (String lo rest).
Proof. reflexivity. Qed.

(** One byte is written as two digits that read back as that byte. *)
Lemma byte_digits (b : Byte.byte) :
  exists hi lo : ascii,
    slice_last 2 ("0" +:+ toString16 (N.land (Byte.to_N b) 255))
    = String hi (String lo EmptyString) /\
    forall rest : string,
      bytesOfDigits (String hi (String lo rest))
      = match bytesOfDigits rest with
        | Some bs => Some (b :: bs)
        | None => None
        end.
Proof. destruct b; (do 2 eexists); split; reflexivity. Qed.

Lemma digits_round_trip (byteArray : bytes) :
  bytesOfDigits
    (String.concat ""
       (map (fun b => slice_last 2 ("0" +:+ toString16 (N.land (Byte.to_N b) 255)))
          byteArray))
  = Some byteArray /\
  String.length
    (String.concat ""
       (map (fun b => slice_last 2 ("0" +:+ toString16 (N.land (Byte.to_N b) 255)))
          byteArray))
  = (2 * length byteArray)%nat.
Proof.
  induction byteArray as [| b rest [IHd IHl]]; [done |].
  cbn [map]. rewrite concat_empty_cons.
  destruct (byte_digits b) as (hi & lo & -> & Hread).
  split.
  - by rewrite two_chars_app, Hread, IHd.
  - rewrite string_app_length, IHl. simpl. lia.
Qed.

(** X17.  [toHexString] writes ["0x"] followed by exactly two lower-case
    hexadecimal digits per byte, and loses nothing: the bytes can be read
    back from the string, so two different byte arrays never get the same
    string. *)
Theorem toHexString_round_trip :
  (forall byteArray : bytes,
      fromHexString (toHexString byteArray) = Some byteArray /\
      String.length (toHexString byteArray) = (2 + 2 * length byteArray)%nat) /\
  (forall a b : bytes, toHexString a = toHexString b -> a = b).
Proof.
  assert (forall byteArray : bytes,
             fromHexString (toHexString byteArray) = Some byteArray /\
             String.length (toHexString byteArray)
             = (2 + 2 * length byteArray)%nat) as Hrt.
  { intros byteArray. destruct (digits_round_trip byteArray) as [Hd Hl].
    unfold toHexString. rewrite two_chars_app. simpl.
    rewrite Hd, Hl. split; [reflexivity | lia]. }
  split; [exact Hrt |].
  intros a b Heq.
  assert (Some a = Some b) as Hab; [| congruence].
  rewrite <- (proj1 (Hrt a)), <- (proj1 (Hrt b)). by rewrite Heq.
Qed.

Section ClientFacts.
Variable initializeSDK : sdk + exception.
Variable bigIntMessage : number -> string.
Variable notIterableMessage : string.

(** X18.  [encryptVote] validates before it touches the SDK: a choice that
    is not exactly 0 or 1 throws "Vote choice must be 0 or 1" whatever the
    weight, and then a weight below 1 or above 10 throws the weight error.
    Whenever it returns, the choice was 0 or 1, the weight was an integer
    from 1 to 10, and the three strings returned are the hexadecimal
    writings of the two handles and of the proof that the SDK produced for
    exactly these two values. *)
Theorem encryptVote_validates
    (choice weight : number) (contractAddress : string)
    (userAddress : option string) :
  (choice <> Int 0 -> choice <> Int 1 ->
   encryptVote initializeSDK bigIntMessage notIterableMessage choice weight
     contractAddress userAddress = inr (Error "Vote choice must be 0 or 1")) /\
  (choice = Int 0 \/ choice = Int 1 ->
   less weight 1 = true \/ greater weight 10 = true ->
   encryptVote initializeSDK bigIntMessage notIterableMessage choice weight
     contractAddress userAddress = inr (Error "Weight must be between 1–10")) /\
  (forall out : encrypted_vote,
      encryptVote initializeSDK bigIntMessage notIterableMessage choice weight
        contractAddress userAddress = inl out ->
      exists (c wt : Z) (inst : sdk) (addr : string) (cts : ciphertexts)
             (h0 h1 : bytes),
        choice = Int c /\ (c = 0 \/ c = 1) /\
        weight = Int wt /\ 1 <= wt <= 10 /\
        initializeSDK = inl inst /\
        encrypt inst contractAddress addr [c; wt] = inl cts /\
        handles cts !! 0%nat = Some h0 /\
        handles cts !! 1%nat = Some h1 /\
        out = {| voteHandleBytes := toHexString h0;
                 weightHandleBytes := toHexString h1;
                 attestation := toHexString (inputProof cts) |}).
Proof.
  unfold encryptVote. split; [| split].
  - intros H0 H1.
    assert (strict_eq choice 0 = false) as ->.
    { destruct choice as [z | | | |]; simpl; try reflexivity.
      apply Z.eqb_neq. congruence. }
    assert (strict_eq choice 1 = false) as ->.
    { destruct choice as [z | | | |]; simpl; try reflexivity.
      apply Z.eqb_neq. congruence. }
    reflexivity.
  - intros Hc Hw.
    assert (negb (strict_eq choice 0) && negb (strict_eq choice 1) = false) as ->
      by (destruct Hc as [-> | ->]; reflexivity).
    assert (less weight 1 || greater weight 10 = true) as ->
      by (destruct Hw as [-> | ->]; [reflexivity | apply orb_true_r]).
    reflexivity.
  - intros out.
    destruct (negb (strict_eq choice 0) && negb (strict_eq choice 1)) eqn:Hc;
      [discriminate |].
    destruct (less weight 1 || greater weight 10) eqn:Hw; [discriminate |].
    destruct initializeSDK as [inst | err]; [| discriminate].
    match goal with
    | |- context [match ?a with inl _ => _ | inr _ => _ end = inl out] =>
        destruct a as [addr | err] eqn:Haddr; [| discriminate]
    end.
    destruct (createEncryptedInput inst contractAddress addr); [discriminate |].
    unfold BigInt.
    destruct choice as [c | | | |]; try discriminate.
    destruct (add8 inst [] c); [discriminate |].
    destruct weight as [wt | | | |]; try discriminate.
    destruct (add8 inst [c] wt); [discriminate |].
    destruct (encrypt inst contractAddress addr [c; wt]) as [cts | err] eqn:He;
      [| discriminate].
    unfold handleHex.
    destruct (handles cts !! 0%nat) as [h0 |] eqn:Hh0; [| discriminate].
    destruct (handles cts !! 1%nat) as [h1 |] eqn:Hh1; [| discriminate].
    intros Hout. inversion Hout.
    exists c, wt, inst, addr, cts, h0, h1.
    simpl in Hc, Hw.
    apply andb_false_iff in Hc. apply orb_false_iff in Hw as [Hlo Hhi].
    repeat split; auto; lia.
Qed.

Variable tx : Type.
Variable submit : method_call -> tx + exception.
Variable wait : tx -> option exception.

(** X19.  [sendFHETransaction] knows three methods only.  It sends
    [castVote] with a gas limit of 5,000,000 and [init] and
    [makeTallyPublic] with 1,000,000, returning or rethrowing whatever the
    call does; for every other method name it throws "Unknown method: "
    followed by the name, without sending anything. *)
Theorem sendFHETransaction_methods (methodName : string) (params : list string) :
  (methodName = "castVote" ->
   sendFHETransaction tx submit methodName params
   = submit (CastVoteCall (params !! 0%nat) (params !! 1%nat)
               (params !! 2%nat) (params !! 3%nat) 5000000)) /\
  (methodName = "init" ->
   sendFHETransaction tx submit methodName params = submit (InitCall 1000000)) /\
  (methodName = "makeTallyPublic" ->
   sendFHETransaction tx submit methodName params
   = submit (MakeTallyPublicCall 1000000)) /\
  (methodName <> "castVote" -> methodName <> "init" ->
   methodName <> "makeTallyPublic" ->
   sendFHETransaction tx submit methodName params
   = inr (Error ("Unknown method: " +:+ methodName))).
Proof.
  repeat split.
  - by intros ->.
  - by intros ->.
  - by intros ->.
  - intros H1 H2 H3. unfold sendFHETransaction.
    apply String.eqb_neq in H1, H2, H3. by rewrite H1, H2, H3.
Qed.

Variable attempt : nat -> chain_state + exception.
Variable ethersSigner : bool.
Variable userAddress : option string.

(** X20.  The hook's [registerVoter] and [grantTallyAccess] can never reach
    the contract: they go through [sendFHETransaction] with the method names
    "registerVoter" and "allowTallyAccess", which it does not know.  With a
    contract and a signer present, each call rejects with that "Unknown
    method" error, records it in [error], ends with [isLoading] false and
    changes nothing else; nothing is submitted, whatever the chain would
    have answered. *)
Theorem hook_admin_calls_always_fail (voter : string) (h : hook) :
  contract h = true ->
  ethersSigner = true ->
  registerVoter tx submit wait attempt ethersSigner userAddress voter h
  = (setIsLoading false
       (setError
          (Some "Voter registration failed: Unknown method: registerVoter") h),
     Rejected (Error "Unknown method: registerVoter")) /\
  grantTallyAccess tx submit wait ethersSigner voter h
  = (setIsLoading false
       (setError
          (Some "Grant tally access failed: Unknown method: allowTallyAccess") h),
     Rejected (Error "Unknown method: allowTallyAccess")).
Proof.
  intros Hc Hs. unfold registerVoter, grantTallyAccess. rewrite Hc, Hs.
  split; reflexivity.
Qed.

(** X21.  The hook's [initializeContract] never rejects and always ends
    with [isLoading] false.  It sets [isInitialized] only when the [init]
    transaction was both sent and confirmed; when either step throws it
    records "Initialization failed: " and the message in [error] and leaves
    [isInitialized] as it was.  Without a contract or a signer it only sets
    the error "Contract or signer not ready". *)
Theorem initializeContract_outcome (h : hook) :
  snd (initializeContract tx submit wait ethersSigner h) = Resolved /\
  (contract h = false \/ ethersSigner = false ->
   fst (initializeContract tx submit wait ethersSigner h)
   = setError (Some "Contract or signer not ready") h) /\
  (contract h = true -> ethersSigner = true ->
   isLoading (fst (initializeContract tx submit wait ethersSigner h)) = false /\
   ((exists t : tx, submit (InitCall 1000000) = inl t /\ wait t = None) ->
    isInitialized (fst (initializeContract tx submit wait ethersSigner h)) = true /\
    error (fst (initializeContract tx submit wait ethersSigner h)) = None) /\
   (forall err : exception,
       submit (InitCall 1000000) = inr err \/
       (exists t : tx, submit (InitCall 1000000) = inl t /\ wait t = Some err) ->
       isInitialized (fst (initializeContract tx submit wait ethersSigner h))
       = isInitialized h /\
       error (fst (initializeContract tx submit wait ethersSigner h))
       = Some ("Initialization failed: " +:+ message err))).
Proof.
  unfold initializeContract.
  replace (sendFHETransaction tx submit "init" [])
    with (submit (InitCall 1000000)) by reflexivity.
  split; [| split].
  - destruct (negb (contract h) || negb ethersSigner); [reflexivity |].
    destruct (submit (InitCall 1000000)) as [t | err]; [| reflexivity].
    destruct (wait t); reflexivity.
  - intros [-> | ->]; [reflexivity |]. by rewrite orb_true_r.
  - intros -> ->. simpl. split; [| split].
    + destruct (submit (InitCall 1000000)) as [t | err]; [| reflexivity].
      destruct (wait t); reflexivity.
    + intros (t & -> & ->). auto.
    + intros err [-> | (t & -> & ->)]; auto.
Qed.

Lemma readContractState_loop_fails (retries remaining : nat) :
  (0 < remaining <= retries)%nat ->
  (forall j : nat, (retries - remaining <= j < retries)%nat ->
                   exists err, attempt j = inr err) ->
  readContractState_loop attempt retries remaining = attempt (retries - 1).
Proof.
  induction remaining as [| k IH]; [lia |].
  intros Hk Hfail. cbn [readContractState_loop].
  destruct (Hfail (retries - S k)%nat ltac:(lia)) as [err Herr].
  rewrite Herr.
  destruct (Nat.eqb_spec (retries - S k) (retries - 1)) as [Heq | Hne].
  - by rewrite <- Heq, Herr.
  - apply IH; [lia |]. intros j Hj. apply Hfail. lia.
Qed.

Lemma readContractState_loop_succeeds (retries remaining k : nat)
    (state : chain_state) :
  (remaining <= retries)%nat ->
  (retries - remaining <= k < retries)%nat ->
  attempt k = inl state ->
  (forall j : nat, (retries - remaining <= j < k)%nat ->
                   exists err, attempt j = inr err) ->
  readContractState_loop attempt retries remaining = inl state.
Proof.
  induction remaining as [| r IH]; [lia |].
  intros Hr Hk Hok Hfail. cbn [readContractState_loop].
  destruct (decide (k = retries - S r)%nat) as [-> | Hne]; [by rewrite Hok |].
  destruct (Hfail (retries - S r)%nat ltac:(lia)) as [err Herr].
  rewrite Herr.
  destruct (Nat.eqb_spec (retries - S r) (retries - 1)) as [Heq | Hne'];
    [lia |].
  apply IH; [lia | lia | exact Hok |]. intros j Hj. apply Hfail. lia.
Qed.

(** X22.  [readContractState] makes its attempts in order and returns the
    first one that succeeds among the first [retries].  When all of them
    fail it throws the error of the last attempt; its closing "Failed to
    read contract state after retries" error is thrown only when [retries]
    is 0, in which case no attempt is made. *)
Theorem readContractState_retries :
  readContractState attempt 0
  = inr (Error "Failed to read contract state after retries") /\
  (forall (retries k : nat) (state : chain_state),
      (k < retries)%nat ->
      attempt k = inl state ->
      (forall j : nat, (j < k)%nat -> exists err, attempt j = inr err) ->
      readContractState attempt retries = inl state) /\
  (forall retries : nat,
      (0 < retries)%nat ->
      (forall j : nat, (j < retries)%nat -> exists err, attempt j = inr err) ->
      readContractState attempt retries = attempt (retries - 1)).
Proof.
  split; [reflexivity |]. split.
  - intros retries k state Hk Hok Hfail. unfold readContractState.
    apply (readContractState_loop_succeeds retries retries k state);
      [lia | lia | exact Hok |].
    intros j Hj. apply Hfail. lia.
  - intros retries Hpos Hfail. unfold readContractState.
    apply readContractState_loop_fails; [lia |].
    intros j Hj. apply Hfail. lia.
Qed.

End ClientFacts.

(** X23.  [formatVotingEndTime] shows "Loading..." while the deadline is
    unknown or zero and "Voting ended" from the deadline on.  Before the
    deadline, for a deadline of at most [MAX_SAFE_INTEGER] and a clock that
    is not negative, it shows "Ends in [h]h [m]m" where [h] hours and [m]
    minutes, with [m] below 60, are the time left rounded down to the
    minute. *)
Theorem formatVotingEndTime_cases (now : Z) :
  formatVotingEndTime None now = Some "Loading..." /\
  formatVotingEndTime (Some 0) now = Some "Loading..." /\
  (forall t : Z,
      t <> 0 -> t <= now ->
      formatVotingEndTime (Some t) now = Some "Voting ended") /\
  (forall t : Z,
      0 <= now -> now < t -> t <= MAX_SAFE_INTEGER ->
      exists hours minutes : Z,
        formatVotingEndTime (Some t) now
        = Some ("Ends in " +:+ pretty hours +:+ "h " +:+ pretty minutes +:+ "m") /\
        0 <= hours < 2 ^ 42 /\ 0 <= minutes < 60 /\
        3600 * hours + 60 * minutes <= t - now
        < 3600 * hours + 60 * minutes + 60).
Proof.
  split; [reflexivity |]. split; [reflexivity |]. split.
  - intros t Hz Ht. unfold formatVotingEndTime.
    apply Z.eqb_neq in Hz. rewrite Hz.
    assert ((t - now <=? 0) = true) as -> by lia. reflexivity.
  - intros t Hnow Ht Hsafe. unfold formatVotingEndTime.
    assert ((t =? 0) = false) as -> by lia.
    assert ((t - now <=? 0) = false) as -> by lia.
    assert ((0 <=? now) && (t <=? MAX_SAFE_INTEGER) = true) as ->.
    { apply andb_true_iff. split; lia. }
    exists ((t - now) / 3600), ((t - now) mod 3600 / 60).
    split; [reflexivity |].
    pose proof (Z.div_mod (t - now) 3600 ltac:(lia)) as Hdm.
    pose proof (Z.mod_pos_bound (t - now) 3600 ltac:(lia)) as Hmb.
    pose proof (Z.div_mod ((t - now) mod 3600) 60 ltac:(lia)) as Hdm2.
    pose proof (Z.mod_pos_bound ((t - now) mod 3600) 60 ltac:(lia)) as Hmb2.
    assert (0 <= (t - now) / 3600) by (apply Z.div_pos; lia).
    assert ((t - now) / 3600 < 2 ^ 42).
    { apply Z.div_lt_upper_bound; [lia |].
      unfold MAX_SAFE_INTEGER in Hsafe. lia. }
    assert (0 <= (t - now) mod 3600 / 60 < 60)
      by (split; [apply Z.div_pos; lia | apply Z.div_lt_upper_bound; lia]).
    repeat split; lia.
Qed.

End FrontendFacts.

Section Agreement.
Context {F : FHE.Capability}.


End Agreement.

(** * The further properties on concrete runs *)

Lemma constructor_outcome_witness :
  deploy (F := Mock.capability) Mock.contract (Mock.at_time Mock.deployer 5) 0
  = inr Duration_must_be_positive /\
  exists w : world,
    deploy (F := Mock.capability) Mock.contract (Mock.at_time Mock.deployer 0) 10
    = inl w /\
    this w = Mock.contract /\
    admin w = Mock.deployer /\
    votingEndTime w = 0 + 10 /\
    initialized w = false /\
    (forall v : address,
        flag (isRegistered w) v = false /\ flag (hasVoted w) v = false) /\
    log w = [].
Proof.
  split.
  - apply (constructor_outcome (F := Mock.capability)). by vm_compute.
  - apply (constructor_outcome (F := Mock.capability) Mock.contract
             (Mock.at_time Mock.deployer 0) 10); by vm_compute.
Defined.

Lemma admin_and_deadline_are_immutable_witness :
  this (run (set_votingEndTime 10
               (set_admin Mock.deployer (blank (F := Mock.capability) Mock.contract)))
          [Mock.single Mock.voterX 3 Init;
           Mock.single Mock.deployer 4 Init]) = Mock.contract /\
  admin (run (set_votingEndTime 10
                (set_admin Mock.deployer (blank (F := Mock.capability) Mock.contract)))
           [Mock.single Mock.voterX 3 Init;
            Mock.single Mock.deployer 4 Init]) = Mock.deployer /\
  votingEndTime
    (run (set_votingEndTime 10
            (set_admin Mock.deployer (blank (F := Mock.capability) Mock.contract)))
       [Mock.single Mock.voterX 3 Init;
        Mock.single Mock.deployer 4 Init]) = 0 + 10.
Proof.
  apply (admin_and_deadline_are_immutable (F := Mock.capability) Mock.contract
           (Mock.at_time Mock.deployer 0) 10).
  apply (deploy_ok (F := Mock.capability) Mock.contract
           (Mock.at_time Mock.deployer 0) 10); by vm_compute.
Defined.

Lemma flags_never_reset_witness :
  flag (isRegistered
          (run Mock.voted [Mock.single Mock.voterY 6 (Mock.ballot Mock.voterY 0 3)]))
    Mock.voterX = true /\
  flag (hasVoted
          (run Mock.voted [Mock.single Mock.voterY 6 (Mock.ballot Mock.voterY 0 3)]))
    Mock.voterX = true /\
  initialized
    (run Mock.voted [Mock.single Mock.voterY 6 (Mock.ballot Mock.voterY 0 3)])
  = true.
Proof.
  destruct (flags_never_reset (F := Mock.capability) Mock.voted
              [Mock.single Mock.voterY 6 (Mock.ballot Mock.voterY 0 3)])
    as (Hr & Hv & Hi).
  split; [apply Hr; by vm_compute |].
  split; [apply Hv; by vm_compute | apply Hi; by vm_compute].
Defined.

Lemma registerVoter_checks_and_is_one_shot_witness :
  transact Mock.voted (Mock.at_time Mock.voterY 6) (RegisterVoter Mock.voterX [])
  = (Mock.voted, Failed Only_admin) /\
  transact (run Mock.voted [Mock.single Mock.voterY 6 (Mock.ballot Mock.voterY 0 3)])
    (Mock.at_time Mock.deployer 20) (RegisterVoter Mock.voterX [])
  = (run Mock.voted [Mock.single Mock.voterY 6 (Mock.ballot Mock.voterY 0 3)],
     Failed Already_registered).
Proof.
  destruct (registerVoter_checks_and_is_one_shot (F := Mock.capability)
              Mock.voted Mock.voterX []) as (Hother & _ & Hagain).
  split; [apply Hother; by vm_compute |].
  apply Hagain; by vm_compute.
Defined.

Lemma castVote_of_registered_voter_witness :
  exists s' : frame,
    perform
      (fresh (fst (transact Mock.opened (Mock.at_time Mock.deployer 2)
                     (RegisterVoter Mock.voterY []))))
      (Mock.at_time Mock.voterY 3) (Mock.ballot Mock.voterY 0 4)
    = (s', Succeeded) /\
    log (world_of s')
    = log (fst (transact Mock.opened (Mock.at_time Mock.deployer 2)
                  (RegisterVoter Mock.voterY [])))
        ++ [VoteCast Mock.voterY []] /\
    isRegistered (world_of s')
    = isRegistered (fst (transact Mock.opened (Mock.at_time Mock.deployer 2)
                           (RegisterVoter Mock.voterY []))) /\
    flag (hasVoted (world_of s')) Mock.voterY = true.
Proof.
  apply (castVote_of_registered_voter (F := Mock.capability)
           (fst (transact Mock.opened (Mock.at_time Mock.deployer 2)
                   (RegisterVoter Mock.voterY [])))
           [] (Mock.at_time Mock.voterY 3)
           (Mock.encrypt 0 Mock.voterY) (Mock.encrypt 4 Mock.voterY) Mock.proof []
           (Mock.Input (Mock.encrypt 0 Mock.voterY))
           (Mock.Input (Mock.encrypt 4 Mock.voterY)));
    by vm_compute.
Defined.

Lemma grantMyVoteDecryptAccess_outcome_witness :
  transact Mock.opened (Mock.at_time Mock.voterY 3)
    (GrantMyVoteDecryptAccess (F := Mock.capability) (Mock.encrypt 1 Mock.voterY) Mock.proof)
  = (Mock.opened, Failed Not_registered) /\
  transact Mock.voted (Mock.at_time Mock.voterX 30)
    (GrantMyVoteDecryptAccess (F := Mock.capability) (Mock.encrypt 1 Mock.voterY) Mock.proof)
  = (Mock.voted, Failed Invalid_ciphertext) /\
  transact Mock.voted (Mock.at_time Mock.voterX 30)
    (GrantMyVoteDecryptAccess (F := Mock.capability) (Mock.encrypt 1 Mock.voterX) Mock.proof)
  = (set_permissions
       (FHE.allow (F := Mock.capability)
          (FHE.Euint8 (F := Mock.capability)
             (Mock.Input (Mock.encrypt 1 Mock.voterX)))
          Mock.voterX (permissions Mock.voted)) Mock.voted,
     Succeeded).
Proof.
  split; [| split].
  - apply (proj1 (grantMyVoteDecryptAccess_outcome (F := Mock.capability)
                    Mock.opened (Mock.at_time Mock.voterY 3)
                    (Mock.encrypt 1 Mock.voterY) Mock.proof)).
    by vm_compute.
  - apply (proj1 (proj2 (grantMyVoteDecryptAccess_outcome (F := Mock.capability)
                           Mock.voted (Mock.at_time Mock.voterX 30)
                           (Mock.encrypt 1 Mock.voterY) Mock.proof)));
      by vm_compute.
  - apply (proj2 (proj2 (grantMyVoteDecryptAccess_outcome (F := Mock.capability)
                           Mock.voted (Mock.at_time Mock.voterX 30)
                           (Mock.encrypt 1 Mock.voterX) Mock.proof))
             (Mock.Input (Mock.encrypt 1 Mock.voterX)));
      by vm_compute.
Defined.

Lemma voter_can_always_reopen_own_vote_witness :
  exists vote : Mock.ciphertext,
    FHE.fromExternal (Capability := Mock.capability) (this Mock.opened) Mock.voterX
      (Mock.encrypt 1 Mock.voterX) Mock.proof = Some vote /\
    forall (txs : list transaction) (e2 : env),
      msg_sender e2 = Mock.voterX ->
      transact (run Mock.voted txs) e2
        (GrantMyVoteDecryptAccess (F := Mock.capability)
           (Mock.encrypt 1 Mock.voterX) Mock.proof)
      = (set_permissions
           (FHE.allow (F := Mock.capability) (FHE.Euint8 (F := Mock.capability) vote) Mock.voterX
              (permissions (run Mock.voted txs))) (run Mock.voted txs),
         Succeeded).
Proof.
  apply (voter_can_always_reopen_own_vote (F := Mock.capability) Mock.opened
           Mock.voted (Mock.at_time Mock.voterX 5)
           (Mock.encrypt 1 Mock.voterX) (Mock.encrypt 5 Mock.voterX) Mock.proof []).
  apply transact_status. by vm_compute.
Defined.

Lemma verifyVote_grants_validity_bit_witness :
  exists isValid : Mock.cipherbit,
    transact Mock.deployed (Mock.at_time Mock.voterY 50)
      (VerifyVote (F := Mock.capability) (Mock.encrypt 2 Mock.voterY) Mock.proof)
    = (set_permissions
         (FHE.allow (F := Mock.capability)
            (FHE.Ebool (F := Mock.capability) isValid) Mock.voterY
            (permissions Mock.deployed)) Mock.deployed,
       Succeeded) /\
    Mock.decryptBool isValid
    = Z.eqb (FHE.decrypt (Capability := Mock.capability)
               (Mock.Input (Mock.encrypt 2 Mock.voterY))) 0
      || Z.eqb (FHE.decrypt (Capability := Mock.capability)
                  (Mock.Input (Mock.encrypt 2 Mock.voterY))) 1.
Proof.
  apply (verifyVote_grants_validity_bit (F := Mock.capability)
           (H := mock_homomorphic) Mock.decryptBool
           (fun a b => eq_refl) (fun a b => eq_refl)
           Mock.deployed (Mock.at_time Mock.voterY 50)
           (Mock.encrypt 2 Mock.voterY) Mock.proof
           (Mock.Input (Mock.encrypt 2 Mock.voterY))).
  by vm_compute.
Defined.

Lemma castVote_succeeds_only_if_witness :
  5 < votingEndTime Mock.opened /\
  initialized Mock.opened = true /\
  flag (hasVoted Mock.opened) Mock.voterX = false /\
  exists vote weight : Mock.ciphertext,
    FHE.fromExternal (Capability := Mock.capability) (this Mock.opened) Mock.voterX
      (Mock.encrypt 1 Mock.voterX) Mock.proof = Some vote /\
    FHE.fromExternal (Capability := Mock.capability) (this Mock.opened) Mock.voterX
      (Mock.encrypt 5 Mock.voterX) Mock.proof = Some weight.
Proof.
  apply (castVote_succeeds_only_if (F := Mock.capability) Mock.opened Mock.voted
           (Mock.at_time Mock.voterX 5)
           (Mock.encrypt 1 Mock.voterX) (Mock.encrypt 5 Mock.voterX) Mock.proof []).
  apply transact_status. by vm_compute.
Defined.

Lemma tallies_frozen_after_deadline_witness :
  totalYesVotes
    (run Mock.voted [Mock.single Mock.voterY 10 (Mock.ballot Mock.voterY 1 3);
                     Mock.single Mock.deployer 11 Init])
  = totalYesVotes Mock.voted /\
  totalNoVotes
    (run Mock.voted [Mock.single Mock.voterY 10 (Mock.ballot Mock.voterY 1 3);
                     Mock.single Mock.deployer 11 Init])
  = totalNoVotes Mock.voted /\
  hasVoted
    (run Mock.voted [Mock.single Mock.voterY 10 (Mock.ballot Mock.voterY 1 3);
                     Mock.single Mock.deployer 11 Init])
  = hasVoted Mock.voted.
Proof.
  apply (tallies_frozen_after_deadline (F := Mock.capability) Mock.voted).
  - by vm_compute.
  - repeat apply Forall_cons_2; [by vm_compute | by vm_compute | apply Forall_nil_2].
Defined.

Lemma nothing_counted_before_init_witness :
  (forall v : address, flag (hasVoted Mock.deployed) v = false) /\
  cast_voters (log Mock.deployed) = [] /\
  totalYesVotes Mock.deployed = FHE.uninitialized /\
  totalNoVotes Mock.deployed = FHE.uninitialized.
Proof.
  apply (nothing_counted_before_init (F := Mock.capability) Mock.deployed).
  - apply mock_deployed_reachable.
  - by vm_compute.
Defined.

Lemma castVote_adds_weight_to_sum_witness :
  exists vote weight : Mock.ciphertext,
    FHE.fromExternal (Capability := Mock.capability) (this Mock.opened)
      Mock.voterX (Mock.encrypt 1 Mock.voterX) Mock.proof = Some vote /\
    FHE.fromExternal (Capability := Mock.capability) (this Mock.opened)
      Mock.voterX (Mock.encrypt 5 Mock.voterX) Mock.proof = Some weight /\
    (FHE.decrypt (totalYesVotes Mock.voted) + FHE.decrypt (totalNoVotes Mock.voted))
      mod uint8_limit =
    (FHE.decrypt (totalYesVotes Mock.opened)
     + FHE.decrypt (totalNoVotes Mock.opened)
     + FHE.decrypt (Capability := Mock.capability) weight) mod uint8_limit.
Proof.
  apply (castVote_adds_weight_to_sum (F := Mock.capability)
           (H := mock_homomorphic) Mock.opened Mock.voted
           (Mock.at_time Mock.voterX 5)
           (Mock.encrypt 1 Mock.voterX) (Mock.encrypt 5 Mock.voterX) Mock.proof []).
  apply transact_status. by vm_compute.
Defined.

Lemma binary_vote_moves_one_tally_witness :
  exists vote weight : Mock.ciphertext,
    FHE.fromExternal (Capability := Mock.capability) (this Mock.opened)
      Mock.voterX (Mock.encrypt 1 Mock.voterX) Mock.proof = Some vote /\
    FHE.fromExternal (Capability := Mock.capability) (this Mock.opened)
      Mock.voterX (Mock.encrypt 5 Mock.voterX) Mock.proof = Some weight /\
    (FHE.decrypt (Capability := Mock.capability) vote = 1 ->
     FHE.decrypt (totalYesVotes Mock.voted) =
     (FHE.decrypt (totalYesVotes Mock.opened)
      + FHE.decrypt (Capability := Mock.capability) weight) mod uint8_limit /\
     FHE.decrypt (totalNoVotes Mock.voted)
     = FHE.decrypt (totalNoVotes Mock.opened)) /\
    (FHE.decrypt (Capability := Mock.capability) vote = 0 ->
     FHE.decrypt (totalYesVotes Mock.voted)
     = FHE.decrypt (totalYesVotes Mock.opened) /\
     FHE.decrypt (totalNoVotes Mock.voted) =
     (FHE.decrypt (totalNoVotes Mock.opened)
      + FHE.decrypt (Capability := Mock.capability) weight) mod uint8_limit).
Proof.
  apply (binary_vote_moves_one_tally (F := Mock.capability)
           (H := mock_homomorphic) Mock.opened Mock.voted
           (Mock.at_time Mock.voterX 5)
           (Mock.encrypt 1 Mock.voterX) (Mock.encrypt 5 Mock.voterX) Mock.proof []).
  - apply mock_opened_reachable.
  - apply transact_status. by vm_compute.
Defined.

Lemma only_admin_opens_access_witness :
  FHE.publiclyDecryptable
    (permissions (fst (transact Mock.voted (Mock.at_time Mock.voterX 30)
                         MakeTallyPublic)))
  = FHE.publiclyDecryptable (permissions Mock.voted) /\
  exists grants : list (FHE.handle * address),
    FHE.allowed
      (permissions (fst (transact Mock.voted (Mock.at_time Mock.voterX 30)
                           MakeTallyPublic)))
    = FHE.allowed (permissions Mock.voted) ++ grants /\
    Forall (fun g => snd g = this Mock.voted
                     \/ snd g = msg_sender (Mock.at_time Mock.voterX 30)) grants.
Proof.
  apply (only_admin_opens_access (F := Mock.capability)). by vm_compute.
Defined.

Lemma log_matches_registries_witness :
  (forall v : address,
      flag (isRegistered Mock.voted) v = true
      <-> v ∈ registered_voters (log Mock.voted)) /\
  (forall v : address,
      flag (hasVoted Mock.voted) v = true <-> v ∈ cast_voters (log Mock.voted)) /\
  NoDup (registered_voters (log Mock.voted)) /\
  NoDup (cast_voters (log Mock.voted)).
Proof.
  apply (log_matches_registries (F := Mock.capability)).
  apply mock_voted_reachable.
Defined.

Lemma admin_functions_are_gated_witness :
  transact Mock.opened (Mock.at_time Mock.voterX 3) MakeTallyPublic
  = (Mock.opened, Failed Only_admin).
Proof.
  apply (proj2 (admin_functions_are_gated (F := Mock.capability) Mock.opened
                  (Mock.at_time Mock.voterX 3) MakeTallyPublic)).
  by vm_compute.
Defined.


Lemma counted_vote_opens_the_round_witness :
  (holds Mock.opened (FHE.Euint8 (totalYesVotes Mock.opened)) /\
   holds Mock.opened (FHE.Euint8 (totalNoVotes Mock.opened))) /\
  transact Mock.opened (Mock.at_time Mock.voterX 5) (Mock.ballot Mock.voterX 1 5)
  = (vote_counted (F := Mock.capability) (Mock.at_time Mock.voterX 5) []
       (Mock.Input (Mock.encrypt 1 Mock.voterX))
       (Mock.Input (Mock.encrypt 5 Mock.voterX)) Mock.opened,
     Succeeded).
Proof.
  destruct (counted_vote_opens_the_round (F := Mock.capability) Mock.opened
              (Mock.at_time Mock.voterX 5)
              (Mock.encrypt 1 Mock.voterX) (Mock.encrypt 5 Mock.voterX) Mock.proof []
              (Mock.Input (Mock.encrypt 1 Mock.voterX))
              (Mock.Input (Mock.encrypt 5 Mock.voterX))
              mock_opened_reachable) as [Hholds Hvote]; [by vm_compute |].
  split; [exact Hholds | apply Hvote; by vm_compute].
Defined.

Module FrontendWitnesses.
Import Frontend.

Lemma toHexString_round_trip_witness :
  (fromHexString (toHexString [Byte.x00; Byte.xff; Byte.x0a])
   = Some [Byte.x00; Byte.xff; Byte.x0a] /\
   String.length (toHexString [Byte.x00; Byte.xff; Byte.x0a]) = 8%nat) /\
  [Byte.x12; Byte.xab] = [Byte.x12; Byte.xab].
Proof.
  destruct FrontendFacts.toHexString_round_trip as [Hrt Hinj].
  split; [apply Hrt | apply Hinj; reflexivity].
Defined.

Lemma encryptVote_validates_witness :
  encryptVote (inl fixed_sdk) (fun _ => "not an integer") "not iterable"
    (Int 2) (Int 5)
    "0xcontract" (Some "0xuser")
  = inr (Error "Vote choice must be 0 or 1") /\
  encryptVote (inl fixed_sdk) (fun _ => "not an integer") "not iterable"
    (Int 1) (Between 10)
    "0xcontract" (Some "0xuser")
  = inr (Error "Weight must be between 1–10") /\
  exists (c wt : Z) (inst : sdk) (addr : string) (cts : ciphertexts)
         (h0 h1 : bytes),
    Int 1 = Int c /\ (c = 0 \/ c = 1) /\
    Int 10 = Int wt /\ 1 <= wt <= 10 /\
    @inl sdk exception fixed_sdk = inl inst /\
    encrypt inst "0xcontract" addr [c; wt] = inl cts /\
    handles cts !! 0%nat = Some h0 /\
    handles cts !! 1%nat = Some h1 /\
    {| voteHandleBytes := "0x01"; weightHandleBytes := "0x02";
       attestation := "0x03" |}
    = {| voteHandleBytes := toHexString h0;
         weightHandleBytes := toHexString h1;
         attestation := toHexString (inputProof cts) |}.
Proof.
  split; [| split].
  - apply (FrontendFacts.encryptVote_validates (inl fixed_sdk)); discriminate.
  - apply (FrontendFacts.encryptVote_validates (inl fixed_sdk));
      [by right | by right].
  - apply (proj2 (proj2 (FrontendFacts.encryptVote_validates (inl fixed_sdk)
                           (fun _ => "not an integer") "not iterable"
                           (Int 1) (Int 10)
                           "0xcontract" (Some "0xuser")))).
    reflexivity.
Defined.

Lemma sendFHETransaction_methods_witness :
  sendFHETransaction string (fun _ => inl "0xhash") "registerVoter" ["0xvoter"; "0x"]
  = inr (Error "Unknown method: registerVoter") /\
  sendFHETransaction string (fun _ => inl "0xhash") "castVote" ["0xa"; "0xb"; "0xc"]
  = inl "0xhash".
Proof.
  split.
  - apply (FrontendFacts.sendFHETransaction_methods string); discriminate.
  - by rewrite (proj1 (FrontendFacts.sendFHETransaction_methods string
                         (fun _ => inl "0xhash") "castVote" ["0xa"; "0xb"; "0xc"])
                  eq_refl).
Defined.

Lemma hook_admin_calls_always_fail_witness :
  registerVoter string (fun _ => inl "0xhash") (fun _ => None)
    (fun _ => inr (Error "offline")) true (Some "0xadmin") "0xvoter" connected
  = (setIsLoading false
       (setError
          (Some "Voter registration failed: Unknown method: registerVoter")
          connected),
     Rejected (Error "Unknown method: registerVoter")) /\
  grantTallyAccess string (fun _ => inl "0xhash") (fun _ => None) true
    "0xvoter" connected
  = (setIsLoading false
       (setError
          (Some "Grant tally access failed: Unknown method: allowTallyAccess")
          connected),
     Rejected (Error "Unknown method: allowTallyAccess")).
Proof.
  apply (FrontendFacts.hook_admin_calls_always_fail string); reflexivity.
Defined.

Lemma initializeContract_outcome_witness :
  isLoading (fst (initializeContract string (fun _ => inl "0xhash")
                    (fun _ => Some (Error "reverted")) true connected)) = false /\
  isInitialized (fst (initializeContract string (fun _ => inl "0xhash")
                        (fun _ => Some (Error "reverted")) true connected))
  = isInitialized connected /\
  error (fst (initializeContract string (fun _ => inl "0xhash")
                (fun _ => Some (Error "reverted")) true connected))
  = Some ("Initialization failed: " +:+ message (Error "reverted")).
Proof.
  destruct (FrontendFacts.initializeContract_outcome string
              (fun _ => inl "0xhash") (fun _ => Some (Error "reverted")) true
              connected) as (_ & _ & Hready).
  destruct (Hready eq_refl eq_refl) as (Hloading & _ & Hfail).
  split; [exact Hloading |].
  apply (Hfail (Error "reverted")). right. by exists "0xhash".
Defined.

Lemma readContractState_retries_witness :
  readContractState third_time_lucky 3
  = inl {| cs_initialized := true; cs_registered := false; cs_voted := false;
           cs_admin := "0xadmin"; cs_endTime := 10 |} /\
  readContractState third_time_lucky 2 = third_time_lucky (2 - 1).
Proof.
  destruct (FrontendFacts.readContractState_retries third_time_lucky)
    as (_ & Hfirst & Hlast).
  split.
  - apply (Hfirst 3%nat 2%nat); [lia | reflexivity |].
    intros j Hj. exists (Error "network").
    destruct j as [| [| j]]; [reflexivity | reflexivity | lia].
  - apply Hlast; [lia |].
    intros j Hj. exists (Error "network").
    destruct j as [| [| j]]; [reflexivity | reflexivity | lia].
Defined.

Lemma formatVotingEndTime_cases_witness :
  formatVotingEndTime (Some 7300) 7300 = Some "Voting ended" /\
  exists hours minutes : Z,
    formatVotingEndTime (Some 7300) 0
    = Some ("Ends in " +:+ pretty hours +:+ "h " +:+ pretty minutes +:+ "m") /\
    0 <= hours < 2 ^ 42 /\ 0 <= minutes < 60 /\
    3600 * hours + 60 * minutes <= 7300 - 0 < 3600 * hours + 60 * minutes + 60.
Proof.
  destruct (FrontendFacts.formatVotingEndTime_cases 7300) as (_ & _ & Hended & _).
  destruct (FrontendFacts.formatVotingEndTime_cases 0) as (_ & _ & _ & Hleft).
  split; [apply Hended; lia | apply Hleft; by vm_compute].
Defined.

End FrontendWitnesses.
